(** * Verification of [animal_helpers.py]

    A shallow embedding of the helper functions of the camera-trap image
    pipeline (directory scanner, batch partitioner, inference executor and
    symlink synchroniser) together with the properties of the specification
    that they satisfy or fail.

    Conventions.
    - A Python call either returns a value or raises: [result].
    - Python [int]s are [Z]; a table (pandas DataFrame) is the list of its
      rows, in positional order.
    - Console output is the list of printed lines, oldest first.
    - The file system is a tree of directories (scanner) or a store of
      entries (synchroniser); a path is resolved as the operating system
      resolves it, component by component and through symbolic links, on
      the text the program hands over. *)

From Stdlib Require Import ZArith String Ascii List Lia Bool.
From stdpp Require Import gmap strings list pretty.
Import ListNotations.

Local Open Scope string_scope.
Local Open Scope list_scope.

(** ** Python results *)

(** The two built-in exception classes the helpers can raise: [ValueError]
    (from [range]) and [OSError] (any failing system call; Python's
    [FileNotFoundError], [FileExistsError], [IsADirectoryError], ... are
    subclasses of it). *)
Inductive exn : Type :=
| ValueError
| OSError.

Inductive result (A : Type) : Type :=
| Ok (a : A)
| Raise (e : exn).
Arguments Ok {A} a.
Arguments Raise {A} e.

Definition raises {A} (r : result A) : Prop :=
  match r with Ok _ => False | Raise _ => True end.

(** ** Batch partitioner *)

Module Partitioner.

(** [len(range(lo, hi, step))] for a non-zero [step]. *)
Definition range_length (lo hi step : Z) : Z :=
  if (0 <? step)%Z && (lo <? hi)%Z then (1 + (hi - 1 - lo) / step)%Z
  else if (step <? 0)%Z && (hi <? lo)%Z then (1 + (lo - 1 - hi) / (- step))%Z
  else 0%Z.

(** [range(lo, hi, step)]: a zero step raises [ValueError]; otherwise the
    k-th element is [lo + k * step]. *)
Definition py_range (lo hi step : Z) : result (list Z) :=
  if (step =? 0)%Z then Raise ValueError
  else Ok (map (fun k => (lo + Z.of_nat k * step)%Z)
               (seq 0 (Z.to_nat (range_length lo hi step)))).

(** Clamping of one bound of a slice [i:j] over [n] elements: a negative
    bound counts from the end, and every bound is cut to [0..n]. *)
Definition slice_bound (n i : Z) : Z :=
  if (i <? 0)%Z then Z.max 0 (i + n) else Z.min i n.

(** [data.iloc[i:j]]: the rows at positions [i <= p < j]. *)
Definition iloc {A} (data : list A) (i j : Z) : list A :=
  let n := Z.of_nat (length data) in
  let a := slice_bound n i in
  let b := slice_bound n j in
  take (Z.to_nat (b - a)) (drop (Z.to_nat a) data).

(** [create_batches(data, batch_size)], the generator run to exhaustion:
    the list of the batches it yields, or the exception that [range]
    raises when the generator is first advanced. *)
Definition create_batches {A} (data : list A) (batch_size : Z)
  : result (list (list A)) :=
  match py_range 0 (Z.of_nat (length data)) batch_size with
  | Raise e => Raise e
  | Ok starts => Ok (map (fun i => iloc data i (i + batch_size)%Z) starts)
  end.

(** ⌈n / b⌉ for a positive [b]. *)
Definition ceil_div (n b : Z) : Z := ((n + b - 1) / b)%Z.

Definition total_rows {A} (batches : list (list A)) : nat :=
  length (concat batches).

(** The k-th contiguous slice of width [b] of a table. *)
Definition chunk {A} (b : nat) (data : list A) (k : nat) : list A :=
  take b (drop (k * b) data).

End Partitioner.

(** ** POSIX path names ([os.path], [pathlib]) *)

Module Path.

Definition sep : ascii := "/"%char.

Definition is_sep (c : ascii) : bool := Ascii.eqb c sep.

(** [s.startswith('/')] and [s.endswith('/')]. *)
Definition starts_with_sep (s : string) : bool :=
  match s with
  | String c _ => is_sep c
  | EmptyString => false
  end.

Fixpoint ends_with_sep (s : string) : bool :=
  match s with
  | EmptyString => false
  | String c EmptyString => is_sep c
  | String _ s' => ends_with_sep s'
  end.

(** [s == '/' * len(s)]. *)
Fixpoint all_sep (s : string) : bool :=
  match s with
  | EmptyString => true
  | String c s' => is_sep c && all_sep s'
  end.

(** [s.split('/')]: never empty, [""] for the empty string. *)
Fixpoint split_sep (s : string) : list string :=
  match s with
  | EmptyString => [EmptyString]
  | String c s' =>
      if is_sep c then EmptyString :: split_sep s'
      else match split_sep s' with
           | [] => [String c EmptyString]
           | h :: t => String c h :: t
           end
  end.

(** ['/'.join(parts)]. *)
Fixpoint join_sep (parts : list string) : string :=
  match parts with
  | [] => EmptyString
  | [p] => p
  | p :: rest => p +:+ "/" +:+ join_sep rest
  end.

(** [s.rstrip('/')]. *)
Fixpoint rstrip_sep (s : string) : string :=
  match s with
  | EmptyString => EmptyString
  | String c s' =>
      match rstrip_sep s' with
      | EmptyString => if is_sep c then EmptyString else String c EmptyString
      | r => String c r
      end
  end.

(** No separator occurs in [s]. *)
Fixpoint sep_free (s : string) : bool :=
  match s with
  | EmptyString => true
  | String c s' => negb (is_sep c) && sep_free s'
  end.

(** [os.path.join(a, b)]: an absolute [b] replaces [a]; otherwise the two
    are glued with exactly one separator. *)
Definition os_path_join (a b : string) : string :=
  if starts_with_sep b then b
  else if String.eqb a "" || ends_with_sep a then a +:+ b
  else a +:+ "/" +:+ b.

(** [os.path.basename(p)]: what follows the last separator. *)
Definition os_path_basename (p : string) : string :=
  List.last (split_sep p) EmptyString.

(** [os.path.dirname(p)]: what precedes the last separator, without its
    trailing separators unless it consists of separators only. *)
Definition os_path_dirname (p : string) : string :=
  match split_sep p with
  | [] | [_] => EmptyString
  | comps =>
      let head := join_sep (removelast comps) +:+ "/" in
      if all_sep head then head else rstrip_sep head
  end.

(** One step of the component loop of [os.path.normpath]. *)
Definition norm_step (absolute : bool) (new_comps : list string) (comp : string)
  : list string :=
  if String.eqb comp "" || String.eqb comp "." then new_comps
  else if negb (String.eqb comp "..")
          || (negb absolute && bool_decide (new_comps = []))
          || String.eqb (List.last new_comps EmptyString) ".."
       then new_comps ++ [comp]
       else removelast new_comps.

(** [os.path.normpath(path)]. *)
Definition os_path_normpath (path : string) : string :=
  if String.eqb path "" then "."
  else
    let initial_slashes : nat :=
      if starts_with_sep path then
        match path with
        | String _ (String c2 rest) =>
            if is_sep c2 && negb (starts_with_sep rest) then 2 else 1
        | _ => 1
        end
      else 0 in
    let comps :=
      fold_left (norm_step (negb (Nat.eqb initial_slashes 0))) (split_sep path) [] in
    let path := String.concat "" (repeat "/" initial_slashes) +:+ join_sep comps in
    if String.eqb path "" then "." else path.

(** [os.path.abspath(path)] in the working directory [cwd]. *)
Definition os_path_abspath (cwd path : string) : string :=
  os_path_normpath (if starts_with_sep path then path else os_path_join cwd path).

(** [pathlib.PurePath(a, b)]: the segments are joined as [os.path.join]
    does, then split into anchor and parts; empty and ["."] parts vanish,
    [".."] stays. *)
Record PurePath : Type := {
  anchor : string;
  parts : list string
}.

Definition pure_path (a b : string) : PurePath :=
  let s := os_path_join a b in
  {| anchor :=
       if starts_with_sep s then
         match s with
         | String _ (String c2 rest) =>
             if is_sep c2 && negb (starts_with_sep rest) then "//" else "/"
         | _ => "/"
         end
       else "";
     parts := List.filter (fun c => negb (String.eqb c "" || String.eqb c "."))
                     (split_sep s) |}.

End Path.

(** ** Inference executor *)

Module Executor.
Import Path.

(** One row of the manifest: the columns ['image_path_rel'], ['class'] and
    ['type']. *)
Record ManifestRow : Type := {
  image_path_rel : string;
  row_class : Z;
  row_type : string
}.

Section WithModel.

(** Box coordinates and confidences are floating-point numbers that the
    executor only passes on; decoded images are opaque as well. *)
Variable float : Type.
Variable image : Type.

(** One row of the table [full_res.pandas().xywhn[0]] that the model gives
    for an image: a normalised box, its confidence and the model's own
    class guess. *)
Record ModelRow : Type := {
  m_xcenter : float;
  m_ycenter : float;
  m_width : float;
  m_height : float;
  m_confidence : float;
  m_class : Z;
  m_name : string
}.

(** One row of the table [process_batch] returns: the model's columns
    plus ['file_name']. *)
Record DetectionRow : Type := {
  xcenter : float;
  ycenter : float;
  width : float;
  height : float;
  confidence : float;
  class : Z;
  name : string;
  file_name : string
}.

(** [cv2.imread]: the decoded image, or [None] when the file is missing
    or cannot be decoded. *)
Variable imread : string -> option image.
(** [cv2.cvtColor(image, cv2.COLOR_BGR2RGB)]. *)
Variable cvtColor : image -> image.
(** The detector, with [.pandas().xywhn[0]] applied to its answer; every
    call gives a table of its own. *)
Variable model : image -> list ModelRow.

(** The three column assignments [results['class'] = class_id],
    [results['name'] = type_name], [results['file_name'] = file], on one
    row of [results]. *)
Definition assign_labels (class_id : Z) (type_name file : string)
    (r : ModelRow) : DetectionRow :=
  {| xcenter := m_xcenter r;
     ycenter := m_ycenter r;
     width := m_width r;
     height := m_height r;
     confidence := m_confidence r;
     class := class_id;
     name := type_name;
     file_name := file |}.

(** State of the loop of [process_batch]: the lines printed so far and
    the list [batch_results] of per-image tables. *)
Record loop_state : Type := {
  printed : list string;
  batch_results : list (list DetectionRow)
}.

(** The body of the [for] loop, for one manifest row. *)
Definition process_row (image_folder : string) (st : loop_state)
    (row : ManifestRow) : loop_state :=
  let file := image_path_rel row in
  let class_id := row_class row in
  let type_name := row_type row in
  let image_path := os_path_join image_folder file in
  match imread image_path with
  | None =>
      {| printed := printed st ++ ["Failed to load image: " +:+ image_path];
         batch_results := batch_results st |}
  | Some image =>
      let image := cvtColor image in
      let results := model image in
      match results with
      | [] => st
      | _ :: _ =>
          let results := map (assign_labels class_id type_name file) results in
          {| printed := printed st;
             batch_results := batch_results st ++ [results] |}
      end
  end.

(** [process_batch(batch, image_folder, model)]: the lines it prints and
    the value it returns, [None] or the concatenated table. *)
Definition process_batch (batch : list ManifestRow) (image_folder : string)
  : list string * option (list DetectionRow) :=
  let st := fold_left (process_row image_folder) batch
              {| printed := []; batch_results := [] |} in
  let out := printed st ++ ["batch complete returning batch"] in
  match batch_results st with
  | _ :: _ => (out, Some (concat (batch_results st)))
  | [] => (out, None)
  end.

(** The rows an image contributes to its batch: what the model returns
    for it, relabelled; nothing when it cannot be decoded. *)
Definition row_rows (image_folder : string) (row : ManifestRow)
  : list DetectionRow :=
  match imread (os_path_join image_folder (image_path_rel row)) with
  | None => []
  | Some image =>
      map (assign_labels (row_class row) (row_type row) (image_path_rel row))
          (model (cvtColor image))
  end.

(** The lines an image makes the loop print. *)
Definition row_lines (image_folder : string) (row : ManifestRow)
  : list string :=
  match imread (os_path_join image_folder (image_path_rel row)) with
  | None =>
      ["Failed to load image: "
         +:+ os_path_join image_folder (image_path_rel row)]
  | Some _ => []
  end.

End WithModel.

Arguments m_xcenter {float}. Arguments m_ycenter {float}.
Arguments m_width {float}. Arguments m_height {float}.
Arguments m_confidence {float}. Arguments m_class {float}.
Arguments m_name {float}.
Arguments xcenter {float}. Arguments ycenter {float}.
Arguments width {float}. Arguments height {float}.
Arguments confidence {float}. Arguments class {float}.
Arguments name {float}. Arguments file_name {float}.
Arguments printed {float}. Arguments batch_results {float}.
Arguments assign_labels {float}.
Arguments process_row {float image}.
Arguments process_batch {float image}.
Arguments row_rows {float image}.
Arguments row_lines {image}.

End Executor.

(** ** Directory scanner *)

Module Scanner.
Import Path.

(** The directory tree under ["/"]. A symbolic link carries the text it
    was created with; a directory that may not be listed has
    [readable = false] (every directory can be passed through: search
    permission is not modelled). The entries of a directory have distinct
    names, other than [""], ["."] and [".."] and free of separators. *)
#[local] Set Warnings "-register-all".
Inductive tree : Type :=
| File
| Symlink (text : string)
| Dir (readable : bool) (entries : list (string * tree)).

Definition assoc (name : string) (entries : list (string * tree)) : option tree :=
  snd <$> List.find (fun e => String.eqb (fst e) name) entries.

(** A place in the tree: an object and the directories above it, nearest
    first. The root has nothing above it. *)
Definition place : Type := tree * list tree.

(** What [..] names at a place; at the root, the root itself. *)
Definition parent_of (p : place) : place :=
  match snd p with
  | [] => p
  | d :: up => (d, up)
  end.

(** The number of symbolic links the system follows in one path before it
    gives up ([ELOOP]). *)
Definition MAXSYMLINKS : nat := 40.

(** Path resolution as the system does it, component by component and on
    the text as given: an empty component or [.] stays, [..] goes up, a
    name must be an entry of a directory, and a symbolic link is replaced
    by its text, read from the root when it is absolute and from the
    directory of the link otherwise. [None] is a failure ([ENOENT],
    [ENOTDIR], [ELOOP]); [fuel] counts the links that may still be
    followed. *)
Fixpoint namei (fuel : nat) (root : tree) {struct fuel}
  : place -> list string -> option place :=
  fix go (p : place) (comps : list string) {struct comps} : option place :=
    match comps with
    | [] => Some p
    | c :: rest =>
        match fst p with
        | Dir _ entries =>
            if String.eqb c "" || String.eqb c "." then go p rest
            else if String.eqb c ".." then go (parent_of p) rest
            else
              match assoc c entries with
              | Some (Symlink text) =>
                  match fuel with
                  | O => None
                  | S fuel' =>
                      if String.eqb text "" then None
                      else namei fuel' root
                             (if starts_with_sep text then (root, []) else p)
                             (split_sep text ++ rest)
                  end
              | Some child => go (child, fst p :: snd p) rest
              | None => None
              end
        | _ => None
        end
    end.

(** The file system a scan runs in: the tree under ["/"] and the names
    that lead from the root to the working directory of the process. *)
Record env : Type := {
  root_dir : tree;
  cwd_parts : list string
}.

(** [os.getcwd()]: always an absolute path. *)
Definition cwd (e : env) : string := "/" +:+ join_sep (cwd_parts e).

(** What the path [path] names for the system: the empty path names
    nothing, an absolute path is read from the root and any other from
    the working directory. The text is taken as it is; nothing is
    normalised first. *)
Definition resolve (e : env) (path : string) : option place :=
  if String.eqb path "" then None
  else
    match (if starts_with_sep path then Some (root_dir e, [])
           else namei MAXSYMLINKS (root_dir e) (root_dir e, []) (cwd_parts e)) with
    | Some start => namei MAXSYMLINKS (root_dir e) start (split_sep path)
    | None => None
    end.

(** [os.scandir(top)]: the entries of a directory that may be listed;
    [None] stands for the [OSError] raised on anything else. *)
Definition scandir (p : option place) : option (list (string * tree)) :=
  match p with
  | Some (Dir true entries, _) => Some entries
  | _ => None
  end.

(** [DirEntry.is_dir()] for an entry of the directory at [here]; it
    follows symbolic links, and a link that leads nowhere is no
    directory. *)
Definition is_dir (root : tree) (here : place) (t : tree) : bool :=
  match t with
  | Dir _ _ => true
  | File => false
  | Symlink text =>
      if String.eqb text "" then false
      else
        match namei MAXSYMLINKS root
                (if starts_with_sep text then (root, []) else here)
                (split_sep text) with
        | Some (Dir _ _, _) => true
        | _ => false
        end
  end.

Definition dirs_of (root : tree) (here : place) (entries : list (string * tree))
  : list string :=
  map fst (List.filter (fun e => is_dir root here (snd e)) entries).

Definition nondirs_of (root : tree) (here : place) (entries : list (string * tree))
  : list string :=
  map fst (List.filter (fun e => negb (is_dir root here (snd e))) entries).

(** [os.walk] below a directory that was already found, [up] being the
    directories above it: top-down, not following links
    ([followlinks=False]) and with [onerror=None], so that a directory
    whose listing fails yields nothing. The walk names a subdirectory by
    [os.path.join(top, name)], which the system resolves to that entry of
    the directory. *)
Fixpoint walk_dir (root : tree) (top : string) (up : list tree) (t : tree)
    {struct t} : list (string * list string * list string) :=
  match t with
  | Dir true entries =>
      (top, dirs_of root (t, up) entries, nondirs_of root (t, up) entries)
      :: (fix walk_entries (es : list (string * tree)) :=
            match es with
            | [] => []
            | (name, child) :: es' =>
                match child with
                | Dir _ _ => walk_dir root (os_path_join top name) (t :: up) child
                | _ => []
                end ++ walk_entries es'
            end) entries
  | _ => []
  end.

(** The triples that come from below the entries of [top], [up] being the
    directory at [top] and those above it: each real subdirectory is walked
    in turn, links and files are not. *)
Definition walk_children (root : tree) (top : string) (up : list tree)
    (entries : list (string * tree)) : list (string * list string * list string) :=
  flat_map (fun e =>
              match snd e with
              | Dir _ _ => walk_dir root (os_path_join top (fst e)) up (snd e)
              | _ => []
              end) entries.

(** [os.walk(top)]: the triples [(root, dirs, files)] it yields. *)
Definition os_walk (e : env) (top : string)
  : list (string * list string * list string) :=
  match resolve e top with
  | Some (d, up) => walk_dir (root_dir e) top up d
  | None => []
  end.

(** What a call printed and how it ended. *)
Record outcome (A : Type) : Type := {
  printed : list string;
  returned : result A
}.
Arguments printed {A}. Arguments returned {A}.

(** [list_files_recursively(folder_path)]. *)
Definition list_files_recursively (e : env) (folder_path : string)
  : outcome (list string) :=
  let files_list :=
    fold_left
      (fun files_list '(root, dirs, files) =>
         fold_left
           (fun files_list file =>
              files_list ++ [os_path_abspath (cwd e) (os_path_join root file)])
           files files_list)
      (os_walk e folder_path) [] in
  {| printed := []; returned := Ok files_list |}.

(** [find_files_recursively(target_path)]. *)
Definition find_files_recursively (e : env) (target_path : string)
  : outcome (list PurePath) :=
  let file_list :=
    fold_left
      (fun file_list '(path, subdirs, files) =>
         fold_left
           (fun file_list name => file_list ++ [pure_path path name])
           files file_list)
      (os_walk e target_path) [] in
  {| printed := []; returned := Ok file_list |}.

(** The paths [list_files_recursively] collects from the triples of a
    walk; [find_files_recursively] collects [PurePath]s in the same way. *)
Definition absolute_files (cwd : string)
    (triples : list (string * list string * list string)) : list string :=
  flat_map (fun t =>
              map (fun file => os_path_abspath cwd (os_path_join (fst (fst t)) file))
                  (snd t)) triples.

Definition pure_files
    (triples : list (string * list string * list string)) : list PurePath :=
  flat_map (fun t => map (pure_path (fst (fst t))) (snd t)) triples.

End Scanner.

(** ** Symlink synchroniser *)

Module Synchronizer.
Import Path.

(** What a path names: a regular file, a directory, or a symbolic link with
    the text it points to. *)
Inductive node : Type :=
| File
| Dir
| Link (target : string).

Global Instance node_eq_dec : EqDecision node.
Proof. solve_decision. Defined.

(** The system calls that change the file system. *)
Inductive syscall : Type :=
| SysMkdir (path : string)
| SysRemove (path : string)
| SysSymlink (target path : string).

Global Instance syscall_eq_dec : EqDecision syscall.
Proof. solve_decision. Defined.

(** The world a call runs in. The store maps every entry, named by the
    names that lead to it from the root through real directories, to its
    node; the root itself, named by the empty list, is always a directory.
    [cwd_parts] names the working directory, which is taken to exist, in
    the same way. [journal] records the successful system calls, oldest
    first, with the path texts they were given. Permissions are not part
    of the world: every directory can be searched and written. *)
Record world : Type := {
  fs : gmap (list string) node;
  cwd_parts : list string;
  stdout : list string;
  journal : list syscall
}.

(** [os.getcwd()]: always an absolute path. *)
Definition cwd (w : world) : string := "/" +:+ join_sep (cwd_parts w).

Definition set_fs (w : world) (sigma : gmap (list string) node) (c : syscall)
  : world :=
  {| fs := sigma; cwd_parts := cwd_parts w; stdout := stdout w;
     journal := journal w ++ [c] |}.

(** A state and exception monad for the calls of the synchroniser. *)
Definition M (A : Type) : Type := world -> result A * world.

Definition ret {A} (a : A) : M A := fun w => (Ok a, w).

Definition bind {A B} (m : M A) (k : A -> M B) : M B :=
  fun w =>
    match m w with
    | (Ok a, w') => k a w'
    | (Raise e, w') => (Raise e, w')
    end.

(** [try: m except OSError: pass]. *)
Definition try_pass (m : M unit) : M unit :=
  fun w =>
    match m w with
    | (Raise OSError, w') => (Ok tt, w')
    | r => r
    end.

Notation "'let*' x ':=' m 'in' k" := (bind m (fun x => k))
  (at level 10, x name, m at level 100, k at level 200).
Notation "'do' m 'then' k" := (bind m (fun _ => k))
  (at level 10, m at level 100, k at level 200).

(** The kernel follows at most 40 links while resolving a name. *)
Definition MAXSYMLINKS : nat := 40.

(** What the entry [k] holds; the root is a directory. *)
Definition node_at (sigma : gmap (list string) node) (k : list string)
  : option node :=
  match k with
  | [] => Some Dir
  | _ => sigma !! k
  end.

(** Path resolution as the system does it, from the directory [cur] and
    component by component: an empty component or [.] stays, [..] goes to
    the directory above, a name must be an entry of a directory, and a
    symbolic link is replaced by its text, read from the root when it is
    absolute and from the directory of the link otherwise. The result is
    the entry reached and the number of links that may still be followed;
    [None] is a failure ([ENOENT], [ENOTDIR], [ELOOP]). *)
Fixpoint namei (fuel : nat) (sigma : gmap (list string) node) {struct fuel}
  : list string -> list string -> option (list string * nat) :=
  fix go (cur : list string) (comps : list string) {struct comps}
    : option (list string * nat) :=
    match comps with
    | [] => Some (cur, fuel)
    | c :: rest =>
        match node_at sigma cur with
        | Some Dir =>
            if String.eqb c "" || String.eqb c "." then go cur rest
            else if String.eqb c ".." then go (removelast cur) rest
            else
              match sigma !! (cur ++ [c]) with
              | Some (Link text) =>
                  match fuel with
                  | O => None
                  | S fuel' =>
                      if String.eqb text "" then None
                      else namei fuel' sigma
                             (if starts_with_sep text then [] else cur)
                             (split_sep text ++ rest)
                  end
              | Some _ => go (cur ++ [c]) rest
              | None => None
              end
        | _ => None
        end
    end.

(** Where the resolution of [path] starts: at the root for an absolute
    path, at the working directory [from] otherwise. *)
Definition start_of (from : list string) (path : string) : list string :=
  if starts_with_sep path then [] else from.

(** [stat]: the node a path leads to, every link followed. The empty path
    names nothing. *)
Definition stat (sigma : gmap (list string) node) (from : list string)
    (path : string) : option node :=
  if String.eqb path "" then None
  else
    match namei MAXSYMLINKS sigma (start_of from path) (split_sep path) with
    | Some (k, _) => node_at sigma k
    | None => None
    end.

(** A path has a final name of its own unless it ends in a separator, in
    [.] or in [..] (or is empty). *)
Definition has_final_name (path : string) : bool :=
  let name := os_path_basename path in
  negb (String.eqb name "" || String.eqb name "." || String.eqb name "..").

(** The entry a path names when its last component is not followed: the
    directory part is resolved, following at most [fuel] links, and must
    lead to a directory; the final name is added to it. [None] when the
    path has no final name or its directory part leads to no directory. *)
Definition entry_with (fuel : nat) (sigma : gmap (list string) node)
    (from : list string) (path : string) : option (list string) :=
  if has_final_name path then
    match namei fuel sigma (start_of from path) (removelast (split_sep path)) with
    | Some (dir, _) =>
        match node_at sigma dir with
        | Some Dir => Some (dir ++ [os_path_basename path])
        | _ => None
        end
    | None => None
    end
  else None.

(** The entry that the system finds for a path. *)
Definition entry_of (sigma : gmap (list string) node) (from : list string)
    (path : string) : option (list string) :=
  entry_with MAXSYMLINKS sigma from path.

(** [lstat]: as [stat], but a link in the last place is not followed. A
    path with no final name of its own names a directory and is resolved
    as by [stat]. *)
Definition lstat (sigma : gmap (list string) node) (from : list string)
    (path : string) : option node :=
  if has_final_name path then
    match entry_of sigma from path with
    | Some k => sigma !! k
    | None => None
    end
  else stat sigma from path.

(** The same for the store and working directory of a world. *)
Definition entry (w : world) (path : string) : option (list string) :=
  entry_of (fs w) (cwd_parts w) path.

(** [os.path.exists(path)]: true when [stat] succeeds. *)
Definition path_exists (w : world) (path : string) : bool :=
  bool_decide (is_Some (stat (fs w) (cwd_parts w) path)).

(** [os.path.islink(path)]: true when [lstat] finds a link. *)
Definition path_islink (w : world) (path : string) : bool :=
  match lstat (fs w) (cwd_parts w) path with
  | Some (Link _) => true
  | _ => false
  end.

Definition os_path_exists (path : string) : M bool :=
  fun w => (Ok (path_exists w path), w).

Definition os_path_islink (path : string) : M bool :=
  fun w => (Ok (path_islink w path), w).

Definition os_getcwd : M string := fun w => (Ok (cwd w), w).

Definition print (line : string) : M unit :=
  fun w => (Ok tt, {| fs := fs w; cwd_parts := cwd_parts w;
                      stdout := stdout w ++ [line];
                      journal := journal w |}).

(** [os.remove(path)]: unlinks the file or the link that [path] names,
    the link itself when it is one; fails on a directory, on a missing
    entry and on a path with no final name. *)
Definition os_remove (path : string) : M unit :=
  fun w =>
    match entry w path with
    | Some k =>
        match fs w !! k with
        | Some File | Some (Link _) =>
            (Ok tt, set_fs w (delete k (fs w)) (SysRemove path))
        | Some Dir | None => (Raise OSError, w)
        end
    | None => (Raise OSError, w)
    end.

(** [os.symlink(target, path)]: fails when [target] is empty, when [path]
    names an existing entry (a broken link is one), when it has no final
    name, or when its directory part leads to no directory. *)
Definition os_symlink (target path : string) : M unit :=
  fun w =>
    if String.eqb target "" then (Raise OSError, w)
    else
      match entry w path with
      | Some k =>
          match fs w !! k with
          | None => (Ok tt, set_fs w (<[k := Link target]> (fs w))
                             (SysSymlink target path))
          | Some _ => (Raise OSError, w)
          end
      | None => (Raise OSError, w)
      end.

(** [os.mkdir(path)]: fails when [path] names an existing entry or when its
    directory part leads to no directory. Separators at the end of [path]
    are ignored. *)
Definition os_mkdir (path : string) : M unit :=
  fun w =>
    match entry w (rstrip_sep path) with
    | Some k =>
        match fs w !! k with
        | None => (Ok tt, set_fs w (<[k := Dir]> (fs w)) (SysMkdir path))
        | Some _ => (Raise OSError, w)
        end
    | None => (Raise OSError, w)
    end.

(** The body of [os.makedirs(name)]: the missing ancestors are created
    first, by the recursive call [recurse]. The library passes over a
    [FileExistsError] of that call; in that case, as after any other
    failure of it, the final [mkdir] fails. *)
Definition makedirs_step (recurse : string -> M unit) (name : string) : M unit :=
  let head := os_path_dirname name in
  let tail := os_path_basename name in
  let head := if String.eqb tail "" then os_path_dirname head else head in
  let tail := if String.eqb tail "" then os_path_basename (os_path_dirname name)
              else tail in
  let* e := os_path_exists head in
  let* finished :=
    if negb (String.eqb head "") && negb (String.eqb tail "") && negb e
    then do try_pass (recurse head) then ret (String.eqb tail ".")
    else ret false in
  if finished then ret tt else os_mkdir name.

Fixpoint makedirs_fuel (fuel : nat) (name : string) : M unit :=
  makedirs_step
    (match fuel with
     | O => fun _ => ret tt
     | S fuel' => makedirs_fuel fuel'
     end) name.

Definition os_makedirs (name : string) : M unit :=
  makedirs_fuel (String.length name) name.

(** Python values a call can return. *)
Inductive pyval : Type :=
| PyNone
| PyInt (n : Z).

(** [for x in xs: acc = body(x, acc)]. *)
Fixpoint for_each {A B} (xs : list A) (acc : B) (body : A -> B -> M B) : M B :=
  match xs with
  | [] => ret acc
  | x :: xs' => let* acc' := body x acc in for_each xs' acc' body
  end.

(** Where the link for [file_name] goes. *)
Definition destination_of (cwd folder_path file_name : string) : string :=
  os_path_join folder_path (os_path_basename (os_path_abspath cwd file_name)).

(** The body of the loop of [populate_with_symlinks]. [folder_path] is
    already absolute. *)
Definition sync_one (folder_path : string) (file_name : string)
    (links_created : Z) : M Z :=
  let* cwd := os_getcwd in
  let target_file := os_path_abspath cwd file_name in
  let destination_file :=
    os_path_join folder_path (os_path_basename target_file) in
  let* source_exists := os_path_exists target_file in
  if source_exists then
    let* e := os_path_exists destination_file in
    let* l := os_path_islink destination_file in
    do (if e || l then os_remove destination_file else ret tt) then
    do os_symlink target_file destination_file then
    ret (links_created + 1)%Z
  else ret links_created.

(** The first steps of [populate_with_symlinks]: the absolute destination,
    created when missing. *)
Definition ensure_folder (folder_path : string) : M string :=
  let* cwd := os_getcwd in
  let folder_path := os_path_abspath cwd folder_path in
  let* e := os_path_exists folder_path in
  do (if negb e then os_makedirs folder_path else ret tt) then
  ret folder_path.

(** [populate_with_symlinks(file_list, folder_path)]. The function ends
    with [print], so it returns [None]. *)
Definition populate_with_symlinks (file_list : list string)
    (folder_path : string) : M pyval :=
  let links_created := 0%Z in
  let* folder_path := ensure_folder folder_path in
  let* links_created :=
    for_each file_list links_created (sync_one folder_path) in
  do print ("Total symbolic links created: " +:+ pretty links_created) then
  ret PyNone.

(** The symbolic links a run created: the [SysSymlink] calls that joined
    the journal. *)
Definition links_in (calls : list syscall) : list syscall :=
  List.filter (fun c => match c with SysSymlink _ _ => true | _ => false end)
              calls.

(** The world after [print(line)]. *)
Definition with_line (w : world) (line : string) : world :=
  {| fs := fs w; cwd_parts := cwd_parts w; stdout := stdout w ++ [line];
     journal := journal w |}.

(** The line [populate_with_symlinks] ends with. *)
Definition total_line (links_created : Z) : string :=
  "Total symbolic links created: " +:+ pretty links_created.

(** [m], started in [w], ends in an outcome and a world that satisfy [Q]. *)
Definition sat {A} (m : M A) (w : world) (Q : result A -> world -> Prop) : Prop :=
  Q (fst (m w)) (snd (m w)).

(** Two worlds with the same working directory and console output. *)
Definition same_console (w w' : world) : Prop :=
  cwd_parts w' = cwd_parts w /\ stdout w' = stdout w.

(** Every entry of [w] is still there, unchanged, in [w']. *)
Definition keeps_entries (w w' : world) : Prop :=
  forall k, is_Some (fs w !! k) -> fs w' !! k = fs w !! k.

(** What [os.makedirs] may do to a world: it adds directories at entries
    that were not there, and nothing else. *)
Record mkdir_only (w w' : world) : Prop := {
  mk_console : same_console w w';
  mk_keeps : keeps_entries w w';
  mk_calls : exists calls, journal w' = journal w ++ calls /\ links_in calls = []
}.

(** The outcome of a call that only creates directories, from [w0]. *)
Definition creates_dirs (w0 : world) (r : result unit) (w' : world) : Prop :=
  mkdir_only w0 w' /\ (r = Ok tt \/ r = Raise OSError).

(** The outcome of the loop, from [w] and a count of [n]: only the journal
    grew, and the count grew by the number of links created. *)
Definition counted (n : Z) (w : world) (r : result Z) (w' : world) : Prop :=
  same_console w w'
  /\ exists calls,
       journal w' = journal w ++ calls
       /\ match r with
          | Ok n' => n' = (n + Z.of_nat (length (links_in calls)))%Z
          | Raise e => e = OSError
          end.

End Synchronizer.

(** ** Sample inputs *)

Module Samples.
Import Path.

(** The manifest row of the specification's label-override example. *)
Definition lion_row : Executor.ManifestRow :=
  {| Executor.image_path_rel := "x.jpg";
     Executor.row_class := 7;
     Executor.row_type := "lion" |}.

(** A row whose image file is absent. *)
Definition missing_row : Executor.ManifestRow :=
  {| Executor.image_path_rel := "gone.jpg";
     Executor.row_class := 3;
     Executor.row_type := "zebra" |}.

(** A row whose image decodes but shows nothing to the model. *)
Definition empty_row : Executor.ManifestRow :=
  {| Executor.image_path_rel := "grass.jpg";
     Executor.row_class := 4;
     Executor.row_type := "hyena" |}.

(** Images are named by their content here, coordinates are given in
    thousandths. *)
Definition sample_imread (path : string) : option string :=
  if String.eqb path "imgs/x.jpg" then Some "bgr:lion"
  else if String.eqb path "imgs/grass.jpg" then Some "bgr:grass"
  else None.

Definition sample_cvtColor (image : string) : string := "rgb:" +:+ image.

(** A detector that sees one animal, of its own class 2, in the lion
    picture and nothing elsewhere. *)
Definition sample_model (image : string) : list (Executor.ModelRow Z) :=
  if String.eqb image "rgb:bgr:lion" then
    [ {| Executor.m_xcenter := 500%Z; Executor.m_ycenter := 400%Z;
         Executor.m_width := 250%Z; Executor.m_height := 300%Z;
         Executor.m_confidence := 910%Z;
         Executor.m_class := 2; Executor.m_name := "animal" |} ]
  else [].

(** A tree with a subdirectory that may not be read. *)
Definition sample_tree : Scanner.tree :=
  Scanner.Dir true
    [ ("data",
       Scanner.Dir true
         [ ("a.jpg", Scanner.File);
           ("locked", Scanner.Dir false [ ("hidden.jpg", Scanner.File) ]);
           ("sub", Scanner.Dir true [ ("b.jpg", Scanner.File) ]) ]) ].

Definition sample_env : Scanner.env :=
  {| Scanner.root_dir := sample_tree; Scanner.cwd_parts := [] |}.

(** A store with a destination [/d] that holds a stale link and a file
    of its own, and a source directory [/new]. *)
Definition sample_world : Synchronizer.world :=
  {| Synchronizer.fs :=
       {[ ["d"] := Synchronizer.Dir;
          ["d"; "a.jpg"] := Synchronizer.Link "/old/a.jpg";
          ["d"; "keep.txt"] := Synchronizer.File;
          ["new"] := Synchronizer.Dir;
          ["new"; "a.jpg"] := Synchronizer.File;
          ["new"; "b.jpg"] := Synchronizer.File ]};
     Synchronizer.cwd_parts := [];
     Synchronizer.stdout := [];
     Synchronizer.journal := [] |}.

(** The same store, with a second name [/dl] for the destination: a
    symbolic link to [/d]. The working directory is [/new]. *)
Definition linked_world : Synchronizer.world :=
  {| Synchronizer.fs :=
       {[ ["d"] := Synchronizer.Dir;
          ["d"; "a.jpg"] := Synchronizer.Link "/old/a.jpg";
          ["d"; "keep.txt"] := Synchronizer.File;
          ["dl"] := Synchronizer.Link "/d";
          ["new"] := Synchronizer.Dir;
          ["new"; "a.jpg"] := Synchronizer.File;
          ["new"; "b.jpg"] := Synchronizer.File ]};
     Synchronizer.cwd_parts := ["new"];
     Synchronizer.stdout := [];
     Synchronizer.journal := [] |}.

(** A store in which the destination [/d] holds a stale link [a.jpg] next
    to a directory [album], and in which two sources are named [a.jpg]. *)
Definition crowded_world : Synchronizer.world :=
  {| Synchronizer.fs :=
       {[ ["d"] := Synchronizer.Dir;
          ["d"; "a.jpg"] := Synchronizer.Link "/old/a.jpg";
          ["d"; "album"] := Synchronizer.Dir;
          ["new"] := Synchronizer.Dir;
          ["new"; "a.jpg"] := Synchronizer.File;
          ["new"; "album"] := Synchronizer.File;
          ["other"] := Synchronizer.Dir;
          ["other"; "a.jpg"] := Synchronizer.File ]};
     Synchronizer.cwd_parts := [];
     Synchronizer.stdout := [];
     Synchronizer.journal := [] |}.

(** A store in which the directory [/real] holds a link [bn] to the root,
    so that [/real/bn/real] is another path to [/real] that goes through
    an entry of [/real] itself. *)
Definition knot_world : Synchronizer.world :=
  {| Synchronizer.fs :=
       {[ ["real"] := Synchronizer.Dir;
          ["real"; "bn"] := Synchronizer.Link "/";
          ["src"] := Synchronizer.Dir;
          ["src"; "bn"] := Synchronizer.File ]};
     Synchronizer.cwd_parts := [];
     Synchronizer.stdout := [];
     Synchronizer.journal := [] |}.

End Samples.

(** ** Notions used to state further properties *)

Module Derived.
Import Path.

(** The rows a caller gets out of what [process_batch] returns: those of
    the table, none for [None]. *)
Definition result_rows {float} (r : option (list (Executor.DetectionRow float)))
  : list (Executor.DetectionRow float) :=
  match r with
  | Some table => table
  | None => []
  end.

(** [file_at root up t comps]: the names [comps] lead from the directory
    [t], which lies below the directories [up] of the tree [root], through
    real directories that may be listed, to an entry that is not a
    directory. *)
Inductive file_at (root : Scanner.tree)
  : list Scanner.tree -> Scanner.tree -> list string -> Prop :=
| file_here up name child entries :
    In (name, child) entries ->
    Scanner.is_dir root (Scanner.Dir true entries, up) child = false ->
    file_at root up (Scanner.Dir true entries) [name]
| file_below up name readable below entries rest :
    In (name, Scanner.Dir readable below) entries ->
    file_at root (Scanner.Dir true entries :: up) (Scanner.Dir readable below) rest ->
    file_at root up (Scanner.Dir true entries) (name :: rest).

(** The path [os.walk] builds for the names [comps] below [top]. *)
Definition walked_path (top : string) (comps : list string) : string :=
  fold_left os_path_join comps top.

(** A system call of the synchroniser that creates a directory. *)
Definition is_mkdir (c : Synchronizer.syscall) : Prop :=
  match c with
  | Synchronizer.SysMkdir _ => True
  | _ => False
  end.

(** What one turn of the loop of [populate_with_symlinks] can do, for the
    file [file_name], from the world [w] and the count [n]:
    - the source does not exist: nothing;
    - the source exists and a system call fails at once, because the
      destination names no entry or names a directory: nothing but the
      exception;
    - the old entry is removed and the link cannot be created, because the
      destination names no entry any more;
    - there is no old entry and the link is created;
    - the old entry, a file or a link, is removed and the link created. *)
Inductive turn (folder_path file_name : string) (n : Z) (w : Synchronizer.world)
  : result Z -> Synchronizer.world -> Prop :=
| turn_skip :
    Synchronizer.path_exists w
      (os_path_abspath (Synchronizer.cwd w) file_name) = false ->
    turn folder_path file_name n w (Ok n) w
| turn_blocked :
    let dest :=
      Synchronizer.destination_of (Synchronizer.cwd w) folder_path file_name in
    Synchronizer.path_exists w
      (os_path_abspath (Synchronizer.cwd w) file_name) = true ->
    (Synchronizer.entry w dest = None
     \/ exists k, Synchronizer.entry w dest = Some k
                  /\ Synchronizer.fs w !! k = Some Synchronizer.Dir) ->
    turn folder_path file_name n w (Raise OSError) w
| turn_removed k :
    let dest :=
      Synchronizer.destination_of (Synchronizer.cwd w) folder_path file_name in
    Synchronizer.path_exists w
      (os_path_abspath (Synchronizer.cwd w) file_name) = true ->
    Synchronizer.entry w dest = Some k ->
    (Synchronizer.fs w !! k = Some Synchronizer.File
     \/ exists old, Synchronizer.fs w !! k = Some (Synchronizer.Link old)) ->
    Synchronizer.entry_of (delete k (Synchronizer.fs w))
      (Synchronizer.cwd_parts w) dest = None ->
    turn folder_path file_name n w (Raise OSError)
      (Synchronizer.set_fs w (delete k (Synchronizer.fs w))
         (Synchronizer.SysRemove dest))
| turn_created k :
    let target := os_path_abspath (Synchronizer.cwd w) file_name in
    let dest :=
      Synchronizer.destination_of (Synchronizer.cwd w) folder_path file_name in
    Synchronizer.path_exists w target = true ->
    Synchronizer.entry w dest = Some k ->
    Synchronizer.fs w !! k = None ->
    turn folder_path file_name n w (Ok (n + 1)%Z)
      (Synchronizer.set_fs w
         (<[k := Synchronizer.Link target]> (Synchronizer.fs w))
         (Synchronizer.SysSymlink target dest))
| turn_replaced k :
    let target := os_path_abspath (Synchronizer.cwd w) file_name in
    let dest :=
      Synchronizer.destination_of (Synchronizer.cwd w) folder_path file_name in
    Synchronizer.path_exists w target = true ->
    Synchronizer.entry w dest = Some k ->
    (Synchronizer.fs w !! k = Some Synchronizer.File
     \/ exists old, Synchronizer.fs w !! k = Some (Synchronizer.Link old)) ->
    Synchronizer.entry_of (delete k (Synchronizer.fs w))
      (Synchronizer.cwd_parts w) dest = Some k ->
    turn folder_path file_name n w (Ok (n + 1)%Z)
      (Synchronizer.set_fs
         (Synchronizer.set_fs w (delete k (Synchronizer.fs w))
            (Synchronizer.SysRemove dest))
         (<[k := Synchronizer.Link target]> (delete k (Synchronizer.fs w)))
         (Synchronizer.SysSymlink target dest)).

(** A system call of the loop for a file of [file_list]: the removal of its
    destination entry, or the creation of the link to its absolute path
    there. *)
Definition is_sync_call (cwd folder_path : string) (file_list : list string)
    (c : Synchronizer.syscall) : Prop :=
  exists f,
    In f file_list
    /\ (c = Synchronizer.SysRemove
               (Synchronizer.destination_of cwd folder_path f)
        \/ c = Synchronizer.SysSymlink (os_path_abspath cwd f)
                 (Synchronizer.destination_of cwd folder_path f)).

Import Synchronizer.

(** What every turn keeps and what its system calls are. *)
Record turn_kept (folder_path file_name : string) (n : Z) (w : world)
    (r : result Z) (w' : world) : Prop := {
  kept_console : same_console w w';
  kept_dirs : forall k, fs w !! k = Some Dir -> fs w' !! k = Some Dir;
  kept_calls :
    exists calls,
      journal w' = journal w ++ calls
      /\ Forall (is_sync_call (cwd w) folder_path [file_name]) calls
      /\ length (links_in calls) <= 1
}.

(** What the loop keeps: the console, the directories, and a journal that
    grows by calls for files of the list, with at most one link each. *)
Record loop_kept (folder_path : string) (file_list : list string) (w w' : world)
  : Prop := {
  loop_console : same_console w w';
  loop_dirs : forall k, fs w !! k = Some Dir -> fs w' !! k = Some Dir;
  loop_calls :
    exists calls,
      journal w' = journal w ++ calls
      /\ Forall (is_sync_call (cwd w) folder_path file_list) calls
      /\ length (links_in calls) <= length file_list
}.

(** The end of a call, from the world [w2] reached after some turn. *)
Definition finish (folder : string) (post : list string) (n : Z) (w2 : world)
  : result pyval * world :=
  match for_each post n (sync_one folder) w2 with
  | (Ok m, w3) => (Ok PyNone, with_line w3 (total_line m))
  | (Raise e, w3) => (Raise e, w3)
  end.

(** A run that only created directories. *)
Definition only_mkdirs (w w' : world) : Prop :=
  exists calls, journal w' = journal w ++ calls /\ Forall is_mkdir calls.

(** A tree in which a directory is reached through a symbolic link. *)
Definition linked_tree : Scanner.tree :=
  Scanner.Dir true
    [ ("data",
       Scanner.Dir true
         [ ("a.jpg", Scanner.File);
           ("shortcut", Scanner.Symlink "../vault");
           ("sub", Scanner.Dir true [ ("b.jpg", Scanner.File) ]) ]);
      ("vault", Scanner.Dir true [ ("deep.jpg", Scanner.File) ]) ].

Definition linked_env : Scanner.env :=
  {| Scanner.root_dir := linked_tree; Scanner.cwd_parts := [] |}.

(** A store in which the destination [/d] holds a directory named like a
    source. *)
Definition collision_world : Synchronizer.world :=
  {| Synchronizer.fs :=
       {[ ["d"] := Synchronizer.Dir;
          ["d"; "album"] := Synchronizer.Dir;
          ["new"] := Synchronizer.Dir;
          ["new"; "a.jpg"] := Synchronizer.File;
          ["new"; "album"] := Synchronizer.File ]};
     Synchronizer.cwd_parts := [];
     Synchronizer.stdout := [];
     Synchronizer.journal := [] |}.

End Derived.

(** ** Properties of the batch partitioner *)

Module PartitionerSpec.
Import Partitioner.

Section Chunks.
Context {A : Type}.
Implicit Types (data : list A) (b q k : nat).

Lemma chunk_succ b data k : chunk b data (S k) = chunk b (drop b data) k.
Proof.
  unfold chunk. rewrite drop_drop. do 2 f_equal; lia.
Qed.

Lemma concat_chunks b q : forall data,
  length data <= q * b ->
  concat (map (chunk b data) (seq 0 q)) = data.
Proof.
  induction q as [|q IH]; intros data Hlen.
  - destruct data; [reflexivity | simpl in Hlen; lia].
  - simpl. rewrite <- seq_shift, map_map.
    rewrite (map_ext _ (chunk b (drop b data))) by apply chunk_succ.
    rewrite IH.
    + unfold chunk at 1. simpl. apply take_drop.
    + rewrite length_drop. lia.
Qed.

Lemma chunk_length b data k :
  (S k) * b <= length data -> length (chunk b data k) = b.
Proof.
  intros H. unfold chunk. rewrite length_take, length_drop. lia.
Qed.

Lemma iloc_chunk data (B : Z) k :
  (0 < B)%Z ->
  (Z.of_nat k * B < Z.of_nat (length data))%Z ->
  iloc data (0 + Z.of_nat k * B) (0 + Z.of_nat k * B + B)
  = chunk (Z.to_nat B) data k.
Proof.
  intros HB Hk. unfold iloc, slice_bound, chunk.
  set (n := Z.of_nat (length data)) in *.
  assert (Hk0 : (0 <= Z.of_nat k * B)%Z) by nia.
  destruct (Z.ltb_spec (0 + Z.of_nat k * B) 0); [lia|].
  destruct (Z.ltb_spec (0 + Z.of_nat k * B + B) 0); [lia|].
  rewrite (Z.min_l (0 + Z.of_nat k * B) n) by lia.
  replace (Z.to_nat (0 + Z.of_nat k * B)) with (k * Z.to_nat B)%nat by nia.
  destruct (Z.le_ge_cases (0 + Z.of_nat k * B + B) n) as [Hle|Hge].
  - rewrite Z.min_l by lia. f_equal. lia.
  - rewrite Z.min_r by lia.
    rewrite !take_ge; [reflexivity | | ]; rewrite length_drop; unfold n in *; nia.
Qed.
End Chunks.

Lemma range_length_ceil (n B : Z) :
  (0 <= n)%Z -> (0 < B)%Z -> range_length 0 n B = ceil_div n B.
Proof.
  intros Hn HB. unfold range_length, ceil_div.
  destruct (Z.ltb_spec 0 B); [|lia]. simpl.
  destruct (Z.ltb_spec 0 n).
  - replace (n + B - 1)%Z with (n - 1 - 0 + 1 * B)%Z by lia.
    rewrite Z.div_add by lia. lia.
  - destruct (Z.ltb_spec B 0); [lia|]. simpl.
    replace n with 0%Z by lia. symmetry. apply Z.div_small. lia.
Qed.

(** ⌈n / b⌉ is the least number of chunks of width [b] that cover [n]. *)
Lemma ceil_div_spec (n B : Z) :
  (0 <= n)%Z -> (0 < B)%Z ->
  (B * (ceil_div n B - 1) < n <= B * ceil_div n B)%Z.
Proof.
  intros Hn HB. unfold ceil_div.
  pose proof (Z.div_mod (n + B - 1) B) as Hdm.
  pose proof (Z.mod_pos_bound (n + B - 1) B HB). lia.
Qed.

(** C1. For a table of N rows and a batch size B > 0, [create_batches]
    yields exactly ⌈N/B⌉ batches; the k-th batch is the contiguous slice of
    B rows that starts at row k*B (cut at the end of the table), so the
    batches concatenated give back the table in its original order, they
    hold N rows in total, and every batch but the last has exactly B
    rows. *)
Theorem create_batches_partition {A} (data : list A) (B : Z)
    (HB : (0 < B)%Z) :
  exists batches,
    create_batches data B = Ok batches
    /\ Z.of_nat (length batches) = ceil_div (Z.of_nat (length data)) B
    /\ (forall k, k < length batches ->
          batches !! k = Some (take (Z.to_nat B) (drop (k * Z.to_nat B) data)))
    /\ concat batches = data
    /\ total_rows batches = length data
    /\ (forall k batch, batches !! k = Some batch -> S k < length batches ->
          Z.of_nat (length batch) = B).
Proof.
  set (n := Z.of_nat (length data)).
  set (q := Z.to_nat (range_length 0 n B)).
  pose proof (range_length_ceil n B ltac:(lia) HB) as Hq.
  pose proof (ceil_div_spec n B ltac:(lia) HB) as Hc.
  assert (Hbatches : create_batches data B
                     = Ok (map (chunk (Z.to_nat B) data) (seq 0 q))).
  { unfold create_batches, py_range. fold n.
    destruct (Z.eqb_spec B 0); [lia|]. fold q.
    rewrite map_map. f_equal. apply map_ext_in.
    intros k Hk. apply in_seq in Hk.
    apply iloc_chunk; [exact HB|]. fold n. unfold q in Hk. nia. }
  exists (map (chunk (Z.to_nat B) data) (seq 0 q)).
  assert (Hcat : concat (map (chunk (Z.to_nat B) data) (seq 0 q)) = data).
  { apply concat_chunks. unfold q, n in *. nia. }
  split; [exact Hbatches|].
  split; [rewrite length_map, length_seq; unfold q; lia|].
  split.
  { intros k Hk. rewrite length_map, length_seq in Hk.
    rewrite list_lookup_fmap, lookup_seq_lt by exact Hk. reflexivity. }
  split; [exact Hcat|].
  split; [unfold total_rows; rewrite Hcat; reflexivity|].
  intros k batch Hlook Hk. rewrite length_map, length_seq in Hk.
  rewrite list_lookup_fmap, lookup_seq_lt in Hlook by lia.
  simpl in Hlook. injection Hlook as <-.
  rewrite chunk_length; [lia|]. unfold q, n in *. nia.
Qed.

Lemma create_batches_partition_witness :
  (0 < 3)%Z /\
  exists batches,
    create_batches [10; 20; 30; 40; 50; 60; 70]%Z 3 = Ok batches
    /\ Z.of_nat (length batches) = ceil_div 7 3
    /\ (forall k, k < length batches ->
          batches !! k
          = Some (take 3 (drop (k * 3) [10; 20; 30; 40; 50; 60; 70]%Z)))
    /\ concat batches = [10; 20; 30; 40; 50; 60; 70]%Z
    /\ total_rows batches = 7
    /\ (forall k batch, batches !! k = Some batch -> S k < length batches ->
          Z.of_nat (length batch) = 3%Z).
Proof.
  split; [lia|].
  exact (create_batches_partition [10; 20; 30; 40; 50; 60; 70]%Z 3 ltac:(lia)).
Defined.

(** C6, as the specification states it, fails: with a negative batch size
    nothing is raised, the generator is simply empty. *)
Lemma create_batches_negative_no_error :
  create_batches [10; 20; 30]%Z (-2) = Ok []
  /\ ~ raises (create_batches [10; 20; 30]%Z (-2)).
Proof. split; [reflexivity | intros []]. Qed.

(** C6, amended. For a batch size of 0 [create_batches] fails with the
    [ValueError] of [range]; for a negative batch size it raises nothing and
    yields no batch at all. *)
Theorem create_batches_nonpositive {A} (data : list A) (B : Z)
    (HB : (B <= 0)%Z) :
  (B = 0%Z -> create_batches data B = Raise ValueError)
  /\ ((B < 0)%Z -> create_batches data B = Ok []).
Proof.
  unfold create_batches, py_range, range_length. split; intros HB'.
  - subst B. reflexivity.
  - destruct (Z.eqb_spec B 0); [lia|].
    destruct (Z.ltb_spec 0 B); [lia|]. simpl.
    destruct (Z.ltb_spec B 0); [|lia]. simpl.
    destruct (Z.ltb_spec (Z.of_nat (length data)) 0); [lia|]. reflexivity.
Qed.

Lemma create_batches_nonpositive_witness :
  (0 <= 0)%Z /\
  ((0 = 0)%Z -> create_batches [10; 20; 30]%Z 0 = Raise ValueError)
  /\ ((0 < 0)%Z -> create_batches [10; 20; 30]%Z 0 = Ok []).
Proof.
  split; [lia|].
  exact (create_batches_nonpositive [10; 20; 30]%Z 0 ltac:(lia)).
Defined.

End PartitionerSpec.


(** ** Properties of the inference executor *)

Module ExecutorSpec.
Import Path Executor.

Section WithModel.
Variables float image : Type.
Variable imread : string -> option image.
Variable cvtColor : image -> image.
Variable model : image -> list (ModelRow float).
Variable image_folder : string.

Local Abbreviation rows_of := (row_rows imread cvtColor model image_folder).
Local Abbreviation lines_of := (row_lines imread image_folder).
Local Abbreviation step := (process_row imread cvtColor model image_folder).

Lemma process_row_printed st row :
  printed (step st row) = printed st ++ lines_of row.
Proof.
  unfold process_row, row_lines.
  destruct (imread _) as [img|]; [|reflexivity].
  destruct (model _); simpl; rewrite app_nil_r; reflexivity.
Qed.

Lemma process_row_concat st row :
  concat (batch_results (step st row))
  = concat (batch_results st) ++ rows_of row.
Proof.
  unfold process_row, row_rows.
  destruct (imread _) as [img|]; simpl; [|rewrite app_nil_r; reflexivity].
  destruct (model _) as [|m ms]; simpl; [rewrite app_nil_r; reflexivity|].
  rewrite concat_app. simpl. rewrite app_nil_r. reflexivity.
Qed.

(** No table of [batch_results] is empty. *)
Lemma process_row_nonempty st row :
  Forall (fun t => t <> []) (batch_results st) ->
  Forall (fun t => t <> []) (batch_results (step st row)).
Proof.
  intros H. unfold process_row.
  destruct (imread _) as [img|]; [|exact H].
  destruct (model _) as [|m ms]; [exact H|]. simpl.
  apply Forall_app. split; [exact H|]. constructor; [discriminate|constructor].
Qed.

Lemma loop_printed batch : forall st,
  printed (fold_left step batch st) = printed st ++ flat_map lines_of batch.
Proof.
  induction batch as [|row batch IH]; intros st; simpl.
  - rewrite app_nil_r. reflexivity.
  - rewrite IH, process_row_printed, <- app_assoc. reflexivity.
Qed.

Lemma loop_concat batch : forall st,
  concat (batch_results (fold_left step batch st))
  = concat (batch_results st) ++ flat_map rows_of batch.
Proof.
  induction batch as [|row batch IH]; intros st; simpl.
  - rewrite app_nil_r. reflexivity.
  - rewrite IH, process_row_concat, <- app_assoc. reflexivity.
Qed.

Lemma loop_nonempty batch : forall st,
  Forall (fun t => t <> []) (batch_results st) ->
  Forall (fun t => t <> []) (batch_results (fold_left step batch st)).
Proof.
  induction batch as [|row batch IH]; intros st H; simpl; [exact H|].
  apply IH, process_row_nonempty, H.
Qed.

(** [process_batch] in terms of what each row contributes. *)
Lemma process_batch_rows batch :
  process_batch imread cvtColor model batch image_folder
  = (flat_map lines_of batch ++ ["batch complete returning batch"],
     match flat_map rows_of batch with
     | [] => None
     | rows => Some rows
     end).
Proof.
  unfold process_batch.
  set (st0 := {| printed := []; batch_results := [] |}).
  pose proof (loop_printed batch st0) as Hp.
  pose proof (loop_concat batch st0) as Hc.
  pose proof (loop_nonempty batch st0 (List.Forall_nil _)) as Hn.
  simpl in Hp, Hc. rewrite Hp, <- Hc.
  destruct (batch_results (fold_left step batch st0)) as [|t ts]; [reflexivity|].
  f_equal. inversion Hn as [|? ? Ht _]; subst.
  destruct t as [|d t]; [congruence|]. reflexivity.
Qed.

(** C2. When the model returns at least one detection for the image of a
    manifest row, the table [process_batch] returns holds, at the place of
    that row, one Detection Row per detection of the model; each carries
    the box and confidence of the model and has its class, name and
    file_name columns set to the 'class', 'type' and 'image_path_rel' of
    the manifest row, whatever class and name the model gave. *)
Theorem process_batch_label_override pre row post img
    (Himg : imread (os_path_join image_folder (image_path_rel row)) = Some img)
    (Hdet : model (cvtColor img) <> []) :
  exists labelled,
    snd (process_batch imread cvtColor model (pre ++ row :: post) image_folder)
    = Some (flat_map rows_of pre ++ labelled ++ flat_map rows_of post)
    /\ Forall2
         (fun m d =>
            class d = row_class row
            /\ name d = row_type row
            /\ file_name d = image_path_rel row
            /\ xcenter d = m_xcenter m /\ ycenter d = m_ycenter m
            /\ width d = m_width m /\ height d = m_height m
            /\ confidence d = m_confidence m)
         (model (cvtColor img)) labelled.
Proof.
  exists (rows_of row). split.
  - rewrite process_batch_rows. simpl.
    rewrite flat_map_app. simpl.
    assert (Hne : rows_of row <> []).
    { unfold row_rows. rewrite Himg.
      destruct (model (cvtColor img)); [congruence | discriminate]. }
    destruct (flat_map rows_of pre ++ rows_of row ++ flat_map rows_of post)
      as [|d ds] eqn:E; [|reflexivity].
    apply app_eq_nil in E as [_ E]. apply app_eq_nil in E as [E _].
    congruence.
  - unfold row_rows. rewrite Himg.
    induction (model (cvtColor img)) as [|m ms IH]; simpl; constructor.
    + repeat split; reflexivity.
    + destruct ms; [constructor|]. apply IH. discriminate.
Qed.

(** C3. When the image of one row cannot be loaded, [process_batch] prints
    a line that gives the path of that image, and goes on with the other
    rows: it returns what it returns for the batch without that row, and
    prints, apart from that one line, what it prints for it. *)
Theorem process_batch_skips_unreadable pre row post
    (Hfail : imread (os_path_join image_folder (image_path_rel row)) = None) :
  let with_row :=
    process_batch imread cvtColor model (pre ++ row :: post) image_folder in
  let without_row :=
    process_batch imread cvtColor model (pre ++ post) image_folder in
  snd with_row = snd without_row
  /\ snd with_row
     = match flat_map rows_of pre ++ flat_map rows_of post with
       | [] => None
       | rows => Some rows
       end
  /\ exists before after,
       fst without_row = before ++ after
       /\ fst with_row
          = before
            ++ ["Failed to load image: "
                  +:+ os_path_join image_folder (image_path_rel row)]
            ++ after.
Proof.
  intros with_row without_row. unfold with_row, without_row.
  rewrite !process_batch_rows. simpl.
  rewrite !flat_map_app. simpl.
  assert (Hrows : rows_of row = []) by (unfold row_rows; rewrite Hfail; reflexivity).
  assert (Hlines : lines_of row
                   = ["Failed to load image: "
                        +:+ os_path_join image_folder (image_path_rel row)])
    by (unfold row_lines; rewrite Hfail; reflexivity).
  rewrite Hrows, Hlines. simpl.
  split; [reflexivity|]. split; [reflexivity|].
  exists (flat_map lines_of pre),
         (flat_map lines_of post ++ ["batch complete returning batch"]).
  rewrite <- !app_assoc. split; reflexivity.
Qed.

(** C4. When every row of a batch either cannot be decoded or gets no
    detection from the model, no row contributes anything and
    [process_batch] returns [None], the empty marker, and not an empty
    table. *)
Theorem process_batch_empty_marker batch
    (Hnone : Forall
               (fun row =>
                  match imread (os_path_join image_folder (image_path_rel row)) with
                  | None => True
                  | Some img => model (cvtColor img) = []
                  end) batch) :
  snd (process_batch imread cvtColor model batch image_folder) = None
  /\ snd (process_batch imread cvtColor model batch image_folder) <> Some []
  /\ Forall (fun row => rows_of row = []) batch.
Proof.
  assert (Hrows : Forall (fun row => rows_of row = []) batch).
  { eapply Forall_impl; [exact Hnone|]. intros row. unfold row_rows.
    destruct (imread _); [intros ->|]; reflexivity. }
  assert (Hflat : flat_map rows_of batch = []).
  { clear Hnone. induction Hrows as [|row batch Hr _ IH]; simpl; [reflexivity|].
    rewrite Hr, IH. reflexivity. }
  rewrite process_batch_rows, Hflat. simpl.
  split; [reflexivity|]. split; [discriminate | exact Hrows].
Qed.

End WithModel.

Import Samples.

Lemma process_batch_label_override_witness :
  sample_imread (os_path_join "imgs" (image_path_rel lion_row)) = Some "bgr:lion"
  /\ sample_model (sample_cvtColor "bgr:lion") <> []
  /\ exists labelled,
       snd (process_batch sample_imread sample_cvtColor sample_model
              ([missing_row] ++ lion_row :: [empty_row]) "imgs")
       = Some (flat_map (row_rows sample_imread sample_cvtColor sample_model "imgs")
                        [missing_row]
               ++ labelled
               ++ flat_map (row_rows sample_imread sample_cvtColor sample_model "imgs")
                           [empty_row])
       /\ Forall2
            (fun m d =>
               class d = 7%Z /\ name d = "lion" /\ file_name d = "x.jpg"
               /\ xcenter d = m_xcenter m /\ ycenter d = m_ycenter m
               /\ width d = m_width m /\ height d = m_height m
               /\ confidence d = m_confidence m)
            (sample_model (sample_cvtColor "bgr:lion")) labelled.
Proof.
  split; [reflexivity|]. split; [discriminate|].
  exact (process_batch_label_override Z string sample_imread sample_cvtColor
           sample_model "imgs" [missing_row] lion_row [empty_row] "bgr:lion"
           eq_refl ltac:(discriminate)).
Defined.

Lemma process_batch_skips_unreadable_witness :
  sample_imread (os_path_join "imgs" (image_path_rel missing_row)) = None
  /\ snd (process_batch sample_imread sample_cvtColor sample_model
            ([lion_row] ++ missing_row :: [empty_row]) "imgs")
     = snd (process_batch sample_imread sample_cvtColor sample_model
              ([lion_row] ++ [empty_row]) "imgs").
Proof.
  split; [reflexivity|].
  exact (proj1 (process_batch_skips_unreadable Z string sample_imread
                  sample_cvtColor sample_model "imgs"
                  [lion_row] missing_row [empty_row] eq_refl)).
Defined.

Lemma process_batch_empty_marker_witness :
  sample_imread (os_path_join "imgs" (image_path_rel empty_row)) = Some "bgr:grass"
  /\ sample_model (sample_cvtColor "bgr:grass") = []
  /\ snd (process_batch sample_imread sample_cvtColor sample_model
            [empty_row] "imgs") = None.
Proof.
  split; [reflexivity|]. split; [reflexivity|].
  refine (proj1 (process_batch_empty_marker Z string sample_imread
                   sample_cvtColor sample_model "imgs" [empty_row] _)).
  constructor; [reflexivity | constructor].
Defined.

End ExecutorSpec.


(** ** Properties of the directory scanner *)

Module ScannerSpec.
Import Path Scanner.

Lemma fold_left_ext {A B} (f g : A -> B -> A) :
  (forall a b, f a b = g a b) ->
  forall l a, fold_left f l a = fold_left g l a.
Proof.
  intros H l. induction l as [|b l IH]; intros a; simpl; [reflexivity|].
  rewrite H. apply IH.
Qed.

(** Appending element by element in two nested loops collects the same list
    as [flat_map]. *)
Lemma nested_append {A B C} (items : A -> list B) (f : A -> B -> C) xs :
  forall acc,
    fold_left (fun acc x => fold_left (fun acc y => acc ++ [f x y]) (items x) acc)
              xs acc
    = acc ++ flat_map (fun x => map (f x) (items x)) xs.
Proof.
  assert (Hin : forall x ys acc,
             fold_left (fun acc y => acc ++ [f x y]) ys acc = acc ++ map (f x) ys).
  { intros x ys. induction ys as [|y ys IH]; intros acc; simpl.
    - rewrite app_nil_r. reflexivity.
    - rewrite IH, <- app_assoc. reflexivity. }
  induction xs as [|x xs IH]; intros acc; simpl.
  - rewrite app_nil_r. reflexivity.
  - rewrite IH, Hin, <- app_assoc. reflexivity.
Qed.

Lemma list_files_recursively_eq e folder_path :
  list_files_recursively e folder_path
  = {| printed := [];
       returned := Ok (absolute_files (cwd e) (os_walk e folder_path)) |}.
Proof.
  unfold list_files_recursively, absolute_files. do 2 f_equal.
  etransitivity;
    [| apply (nested_append (fun t => snd t)
                (fun t file => os_path_abspath (cwd e) (os_path_join (fst (fst t)) file))
                _ [])].
  apply fold_left_ext. intros acc [[root dirs] files]. reflexivity.
Qed.

Lemma find_files_recursively_eq e target_path :
  find_files_recursively e target_path
  = {| printed := []; returned := Ok (pure_files (os_walk e target_path)) |}.
Proof.
  unfold find_files_recursively, pure_files. do 2 f_equal.
  etransitivity;
    [| apply (nested_append (fun t => snd t)
                (fun t name => pure_path (fst (fst t)) name) _ [])].
  apply fold_left_ext. intros acc [[root dirs] files]. reflexivity.
Qed.

(** One step of the walk. *)
Lemma walk_dir_readable root top up entries :
  walk_dir root top up (Dir true entries)
  = (top, dirs_of root (Dir true entries, up) entries,
     nondirs_of root (Dir true entries, up) entries)
    :: walk_children root top (Dir true entries :: up) entries.
Proof.
  simpl. f_equal. unfold walk_children.
  generalize (Dir true entries :: up) as here. intros here.
  induction entries as [|[name child] es IH]; simpl; [reflexivity|].
  rewrite IH. reflexivity.
Qed.

Lemma os_walk_unlistable e top :
  scandir (resolve e top) = None -> os_walk e top = [].
Proof.
  unfold scandir, os_walk. destruct (resolve e top) as [[d up]|]; [|reflexivity].
  destruct d as [| |[|] es]; try reflexivity. discriminate.
Qed.

Lemma os_walk_listable e top entries up :
  resolve e top = Some (Dir true entries, up) ->
  os_walk e top
  = (top, dirs_of (root_dir e) (Dir true entries, up) entries,
     nondirs_of (root_dir e) (Dir true entries, up) entries)
    :: walk_children (root_dir e) top (Dir true entries :: up) entries.
Proof. intros H. unfold os_walk. rewrite H. apply walk_dir_readable. Qed.

(** The system resolves the text of the root as it stands: the empty path
    names nothing, and a path names nothing as soon as one of its
    components is missing or is no directory, whatever follows it. *)
Example resolve_raw_text :
  resolve Samples.sample_env "" = None
  /\ resolve Samples.sample_env "/nope/.." = None
  /\ resolve Samples.sample_env "/data/a.jpg/.." = None
  /\ resolve Samples.sample_env "/data/a.jpg/" = None
  /\ resolve Samples.sample_env "/data/sub/.." = resolve Samples.sample_env "/data"
  /\ resolve Samples.sample_env "//data/./sub/" = resolve Samples.sample_env "data/sub"
  /\ list_files_recursively Samples.sample_env ""
     = {| printed := []; returned := Ok [] |}
  /\ list_files_recursively Samples.sample_env "/nope/.."
     = {| printed := []; returned := Ok [] |}
  /\ list_files_recursively Samples.sample_env "/data/a.jpg/.."
     = {| printed := []; returned := Ok [] |}
  /\ list_files_recursively Samples.sample_env "/data/sub/.."
     = {| printed := [];
          returned := Ok ["/data/a.jpg"; "/data/sub/b.jpg"] |}.
Proof. repeat split; reflexivity. Qed.

(** C7, as the specification states it, fails: a root that does not exist,
    or that may not be read, makes the scanners return the empty list;
    nothing is raised. With an unreadable subdirectory below the root
    nothing is printed either. *)
Lemma scanner_missing_root_no_error :
  resolve Samples.sample_env "/nope" = None
  /\ list_files_recursively Samples.sample_env "/nope"
     = {| printed := []; returned := Ok [] |}
  /\ find_files_recursively Samples.sample_env "/nope"
     = {| printed := []; returned := Ok [] |}
  /\ ~ raises (returned (list_files_recursively Samples.sample_env "/nope"))
  /\ ~ raises (returned (find_files_recursively Samples.sample_env "/nope"))
  /\ list_files_recursively Samples.sample_env "/data/locked"
     = {| printed := []; returned := Ok [] |}
  /\ list_files_recursively Samples.sample_env "/data"
     = {| printed := []; returned := Ok ["/data/a.jpg"; "/data/sub/b.jpg"] |}.
Proof. repeat split; try reflexivity; intros []. Qed.

(** C7, amended. A root whose listing fails (it does not exist, is not a
    directory or may not be read) makes both scanners return the empty list
    with no error and no message. Below a root that can be listed, a
    subdirectory that may not be read is passed over without any message
    and without stopping the scan: the scanners return the files of the
    root and of what lies below its other entries. The same holds at every
    depth: wherever the walk meets a subdirectory that may not be read, it
    goes on with the entries before and after it. *)
Theorem scanner_ignores_listing_errors e path :
  (scandir (resolve e path) = None ->
     list_files_recursively e path = {| printed := []; returned := Ok [] |}
     /\ find_files_recursively e path = {| printed := []; returned := Ok [] |})
  /\ (forall up before name hidden after,
        let entries := before ++ (name, Dir false hidden) :: after in
        let here := Dir true entries :: up in
        let triples :=
          (path, dirs_of (root_dir e) (Dir true entries, up) entries,
           nondirs_of (root_dir e) (Dir true entries, up) entries)
          :: walk_children (root_dir e) path here before
             ++ walk_children (root_dir e) path here after in
        resolve e path = Some (Dir true entries, up) ->
        list_files_recursively e path
        = {| printed := []; returned := Ok (absolute_files (cwd e) triples) |}
        /\ find_files_recursively e path
           = {| printed := []; returned := Ok (pure_files triples) |})
  /\ (forall top up before name hidden after,
        let entries := before ++ (name, Dir false hidden) :: after in
        let here := Dir true entries :: up in
        walk_dir (root_dir e) top up (Dir true entries)
        = (top, dirs_of (root_dir e) (Dir true entries, up) entries,
           nondirs_of (root_dir e) (Dir true entries, up) entries)
          :: walk_children (root_dir e) top here before
             ++ walk_children (root_dir e) top here after).
Proof.
  assert (Hstep : forall top up before name hidden after,
             walk_dir (root_dir e) top up
               (Dir true (before ++ (name, Dir false hidden) :: after))
             = (top,
                dirs_of (root_dir e)
                  (Dir true (before ++ (name, Dir false hidden) :: after), up)
                  (before ++ (name, Dir false hidden) :: after),
                nondirs_of (root_dir e)
                  (Dir true (before ++ (name, Dir false hidden) :: after), up)
                  (before ++ (name, Dir false hidden) :: after))
               :: walk_children (root_dir e) top
                    (Dir true (before ++ (name, Dir false hidden) :: after) :: up)
                    before
                  ++ walk_children (root_dir e) top
                       (Dir true (before ++ (name, Dir false hidden) :: after) :: up)
                       after).
  { intros top up before name hidden after.
    rewrite walk_dir_readable. f_equal. unfold walk_children.
    rewrite flat_map_app. reflexivity. }
  split; [|split].
  - intros H. rewrite list_files_recursively_eq, find_files_recursively_eq.
    rewrite (os_walk_unlistable _ _ H). split; reflexivity.
  - intros up before name hidden after entries here triples Hres.
    rewrite list_files_recursively_eq, find_files_recursively_eq.
    assert (Hwalk : os_walk e path = triples).
    { unfold os_walk. rewrite Hres. apply Hstep. }
    rewrite Hwalk. split; reflexivity.
  - intros top up before name hidden after entries here. apply Hstep.
Qed.

Lemma scanner_ignores_listing_errors_witness :
  (scandir (resolve Samples.sample_env "/data/locked") = None
   /\ list_files_recursively Samples.sample_env "/data/locked"
      = {| printed := []; returned := Ok [] |}
   /\ find_files_recursively Samples.sample_env "/data/locked"
      = {| printed := []; returned := Ok [] |})
  /\ (scandir (resolve Samples.sample_env "/nope/..") = None
      /\ list_files_recursively Samples.sample_env "/nope/.."
         = {| printed := []; returned := Ok [] |})
  /\ (resolve Samples.sample_env "/data"
      = Some (Dir true ([("a.jpg", File)]
                        ++ ("locked", Dir false [("hidden.jpg", File)])
                        :: [("sub", Dir true [("b.jpg", File)])]),
              [Samples.sample_tree])
      /\ list_files_recursively Samples.sample_env "/data"
         = {| printed := [];
              returned := Ok ["/data/a.jpg"; "/data/sub/b.jpg"] |}).
Proof.
  split; [|split].
  - split; [reflexivity|].
    exact (proj1 (scanner_ignores_listing_errors Samples.sample_env "/data/locked")
                 eq_refl).
  - split; [reflexivity|].
    exact (proj1 (proj1 (scanner_ignores_listing_errors Samples.sample_env
                           "/nope/..") eq_refl)).
  - split; [reflexivity|].
    exact (proj1 (proj1 (proj2 (scanner_ignores_listing_errors Samples.sample_env
                                  "/data"))
                        [Samples.sample_tree] [("a.jpg", File)] "locked"
                        [("hidden.jpg", File)]
                        [("sub", Dir true [("b.jpg", File)])] eq_refl)).
Defined.

End ScannerSpec.


(** ** Properties of path names *)

Module PathSpec.
Import Path.

(** The path functions on the names used below. *)
Example abspath_relative :
  os_path_abspath "/home/u" "data/../imgs//a.jpg" = "/home/u/imgs/a.jpg".
Proof. reflexivity. Qed.

Example abspath_root : os_path_abspath "/home/u" "/../.." = "/".
Proof. reflexivity. Qed.

Example basename_file : os_path_basename "/new/a.jpg" = "a.jpg".
Proof. reflexivity. Qed.

Example basename_root : os_path_basename "/" = "".
Proof. reflexivity. Qed.

Example dirname_file : os_path_dirname "/d/a.jpg" = "/d".
Proof. reflexivity. Qed.

Example dirname_top : os_path_dirname "/a.jpg" = "/".
Proof. reflexivity. Qed.

Example join_folder : os_path_join "/d" "a.jpg" = "/d/a.jpg".
Proof. reflexivity. Qed.

Example join_absolute : os_path_join "imgs" "/abs/x.jpg" = "/abs/x.jpg".
Proof. reflexivity. Qed.

Lemma split_sep_nonempty s : split_sep s <> [].
Proof.
  destruct s as [|c s]; simpl; [discriminate|].
  destruct (is_sep c); [discriminate|].
  destruct (split_sep s); discriminate.
Qed.

Lemma split_sep_free s : Forall (fun c => sep_free c = true) (split_sep s).
Proof.
  induction s as [|c s IH]; simpl.
  - repeat constructor.
  - destruct (is_sep c) eqn:E.
    + constructor; [reflexivity | exact IH].
    + destruct (split_sep s) as [|h t]; [repeat constructor; simpl; rewrite E; reflexivity|].
      inversion IH as [|? ? Hh Ht]; subst.
      constructor; [simpl; rewrite E, Hh; reflexivity | exact Ht].
Qed.

Lemma basename_sep_free p : sep_free (os_path_basename p) = true.
Proof.
  unfold os_path_basename.
  pose proof (split_sep_free p) as H.
  induction H as [|c l Hc Hl IH]; [reflexivity|].
  destruct l; [exact Hc | exact IH].
Qed.

Lemma ends_with_sep_app a b :
  b <> "" -> ends_with_sep (a +:+ b) = ends_with_sep b.
Proof.
  intros Hb. induction a as [|c a IH]; [reflexivity|].
  change (String c a +:+ b) with (String c (a +:+ b)).
  rewrite <- IH. simpl. destruct (a +:+ b) eqn:E; [|reflexivity].
  exfalso. destruct a as [|c' a']; [apply Hb; exact E|].
  change (String c' a' +:+ b) with (String c' (a' +:+ b)) in E. discriminate E.
Qed.

Lemma sep_free_ends b : sep_free b = true -> ends_with_sep b = false.
Proof.
  induction b as [|c b IH]; [reflexivity|]. simpl.
  intros H. apply andb_prop in H as [Hc Hb].
  destruct b; [destruct (is_sep c); [discriminate | reflexivity] | apply IH, Hb].
Qed.

(** The destination of a source that has a base name is an entry name. *)
Lemma join_basename_entry folder target :
  os_path_basename target <> "" ->
  ends_with_sep (os_path_join folder (os_path_basename target)) = false.
Proof.
  intros Hne. pose proof (basename_sep_free target) as Hfree.
  set (b := os_path_basename target) in *.
  assert (Hend : ends_with_sep b = false) by (apply sep_free_ends, Hfree).
  unfold os_path_join.
  assert (Hstart : starts_with_sep b = false).
  { destruct b as [|c b']; [reflexivity|]. simpl in *.
    destruct (is_sep c); [discriminate | reflexivity]. }
  rewrite Hstart.
  destruct (String.eqb folder "" || ends_with_sep folder).
  - rewrite ends_with_sep_app by exact Hne. exact Hend.
  - rewrite ends_with_sep_app.
    + rewrite ends_with_sep_app by exact Hne. exact Hend.
    + destruct b; [congruence | discriminate].
Qed.

End PathSpec.

(** ** Further properties of path names *)

Module PathMore.
Import Path PathSpec.

Lemma is_sep_eq c : is_sep c = true -> c = "/"%char.
Proof. unfold is_sep, sep. apply Ascii.eqb_eq. Qed.

Lemma split_sep_app_sep x y :
  split_sep (x +:+ String "/" y) = split_sep x ++ split_sep y.
Proof.
  induction x as [|c x IH].
  - reflexivity.
  - change (String c x +:+ String "/" y) with (String c (x +:+ String "/" y)).
    simpl. rewrite IH. destruct (is_sep c); [reflexivity|].
    pose proof (split_sep_nonempty x) as Hx.
    destruct (split_sep x) as [|h t]; [congruence | reflexivity].
Qed.

Lemma split_sep_single b : sep_free b = true -> split_sep b = [b].
Proof.
  induction b as [|c b IH]; [reflexivity|]. simpl.
  intros H. apply andb_prop in H as [Hc Hb].
  destruct (is_sep c); [discriminate|]. rewrite (IH Hb). reflexivity.
Qed.

Lemma ends_with_sep_inv a :
  ends_with_sep a = true -> exists a', a = a' +:+ "/".
Proof.
  induction a as [|c a IH]; [discriminate|]. simpl.
  destruct a as [|c' a'].
  - intros H. apply is_sep_eq in H. subst c. exists "". reflexivity.
  - intros H. destruct (IH H) as [x Hx]. exists (String c x).
    rewrite Hx. reflexivity.
Qed.

Lemma app_sep_assoc a b : (a +:+ "/") +:+ b = a +:+ String "/" b.
Proof.
  induction a as [|c a IH]; [reflexivity|].
  change ((String c a +:+ "/") +:+ b) with (String c ((a +:+ "/") +:+ b)).
  rewrite IH. reflexivity.
Qed.

Lemma last_app_single {A} (l : list A) x d : List.last (l ++ [x]) d = x.
Proof. apply last_last. Qed.

(** The base name of [os.path.join(a, b)] is [b] when [b] holds no
    separator. *)
Lemma basename_join a b :
  sep_free b = true -> os_path_basename (os_path_join a b) = b.
Proof.
  intros Hb. unfold os_path_join, os_path_basename.
  assert (Hstart : starts_with_sep b = false).
  { destruct b as [|c b']; [reflexivity|]. simpl in *.
    destruct (is_sep c); [discriminate | reflexivity]. }
  rewrite Hstart.
  assert (Hsep : forall x, List.last (split_sep (x +:+ String "/" b)) "" = b).
  { intros x. rewrite split_sep_app_sep, (split_sep_single b Hb).
    apply last_app_single. }
  destruct (String.eqb_spec a "") as [->|Ha]; simpl.
  - change ("" +:+ b) with b. rewrite (split_sep_single b Hb). reflexivity.
  - destruct (ends_with_sep a) eqn:E.
    + destruct (ends_with_sep_inv a E) as [a' ->].
      rewrite app_sep_assoc. apply Hsep.
    + apply Hsep.
Qed.

(** [os.path.normpath] keeps a path absolute, and [os.path.abspath] makes
    every path absolute when the working directory is. *)
Lemma normpath_absolute p :
  starts_with_sep p = true -> starts_with_sep (os_path_normpath p) = true.
Proof.
  intros H. unfold os_path_normpath.
  destruct p as [|c1 p']; [discriminate|]. simpl in H.
  change (String.eqb (String c1 p') "") with false. cbv iota.
  change (starts_with_sep (String c1 p')) with (is_sep c1). rewrite H.
  set (n := match p' with
            | String c2 rest => if is_sep c2 && negb (starts_with_sep rest) then 2 else 1
            | _ => 1
            end).
  assert (Hn : n = 1 \/ n = 2).
  { unfold n. destruct p' as [|c2 rest]; [left; reflexivity|].
    destruct (_ && _); [right | left]; reflexivity. }
  generalize (fold_left (norm_step (negb (Nat.eqb n 0))) (split_sep (String c1 p')) []).
  intros comps. destruct Hn as [-> | ->]; reflexivity.
Qed.

Lemma abspath_absolute c p :
  starts_with_sep c = true -> starts_with_sep (os_path_abspath c p) = true.
Proof.
  intros Hc. unfold os_path_abspath.
  destruct (starts_with_sep p) eqn:E; apply normpath_absolute; [exact E|].
  unfold os_path_join. rewrite E.
  destruct c as [|c1 c']; [discriminate|].
  destruct (_ || _); exact Hc.
Qed.

Lemma abspath_nonempty c p :
  starts_with_sep c = true -> String.eqb (os_path_abspath c p) "" = false.
Proof.
  intros Hc. pose proof (abspath_absolute c p Hc) as H.
  destruct (os_path_abspath c p); [discriminate | reflexivity].
Qed.

End PathMore.

(** ** Properties of the symlink synchroniser *)

Module SynchronizerSpec.
Import Path Synchronizer PathSpec PathMore Derived.

(** *** Reasoning about calls *)

Lemma sat_ret {A} (a : A) w (Q : result A -> world -> Prop) :
  Q (Ok a) w -> sat (ret a) w Q.
Proof. intros H. exact H. Qed.

Lemma sat_bind {A B} (m : M A) (k : A -> M B) w (Q : result B -> world -> Prop) :
  sat m w (fun r w' =>
             match r with
             | Ok a => sat (k a) w' Q
             | Raise e => Q (Raise e) w'
             end) ->
  sat (bind m k) w Q.
Proof.
  unfold sat, bind. destruct (m w) as [[a|e] w']; simpl; intros H; exact H.
Qed.

Lemma sat_weaken {A} (m : M A) w (P Q : result A -> world -> Prop) :
  sat m w P -> (forall r w', P r w' -> Q r w') -> sat m w Q.
Proof. unfold sat. intros H HPQ. apply HPQ, H. Qed.

Lemma sat_exists (p : string) w (Q : result bool -> world -> Prop) :
  Q (Ok (path_exists w p)) w -> sat (os_path_exists p) w Q.
Proof. intros H. exact H. Qed.

Lemma sat_islink (p : string) w (Q : result bool -> world -> Prop) :
  Q (Ok (path_islink w p)) w -> sat (os_path_islink p) w Q.
Proof. intros H. exact H. Qed.

Lemma sat_getcwd w (Q : result string -> world -> Prop) :
  Q (Ok (cwd w)) w -> sat os_getcwd w Q.
Proof. intros H. exact H. Qed.

Lemma sat_run {A} (m : M A) w r w' (Q : result A -> world -> Prop) :
  m w = (r, w') -> sat m w Q -> Q r w'.
Proof. unfold sat. intros ->. simpl. intros H; exact H. Qed.

Lemma sat_eq {A} (m : M A) w r0 w0 :
  sat m w (fun r w' => r = r0 /\ w' = w0) -> m w = (r0, w0).
Proof. unfold sat. destruct (m w) as [r w']. simpl. intros [-> ->]. reflexivity. Qed.

Lemma bind_ok {A B} (m : M A) (k : A -> M B) w a w' :
  m w = (Ok a, w') -> bind m k w = k a w'.
Proof. unfold bind. intros ->. reflexivity. Qed.

Lemma bind_raise {A B} (m : M A) (k : A -> M B) w e w' :
  m w = (Raise e, w') -> bind m k w = (Raise e, w').
Proof. unfold bind. intros ->. reflexivity. Qed.

Lemma links_in_app a b : links_in (a ++ b) = links_in a ++ links_in b.
Proof. apply List.filter_app. Qed.

(** *** Path resolution *)

Lemma namei_nil fuel sigma cur : namei fuel sigma cur [] = Some (cur, fuel).
Proof. destruct fuel; reflexivity. Qed.

Lemma namei_cons fuel sigma cur c rest :
  namei fuel sigma cur (c :: rest)
  = match node_at sigma cur with
    | Some Dir =>
        if String.eqb c "" || String.eqb c "." then namei fuel sigma cur rest
        else if String.eqb c ".." then namei fuel sigma (removelast cur) rest
        else
          match sigma !! (cur ++ [c]) with
          | Some (Link text) =>
              match fuel with
              | O => None
              | S fuel' =>
                  if String.eqb text "" then None
                  else namei fuel' sigma
                         (if starts_with_sep text then [] else cur)
                         (split_sep text ++ rest)
              end
          | Some _ => namei fuel sigma (cur ++ [c]) rest
          | None => None
          end
    | _ => None
    end.
Proof. destruct fuel; reflexivity. Qed.

(** Resolving a path in two parts: the second part goes on from where the
    first one ended, with the links that are left. *)
Lemma namei_app sigma : forall fuel a b cur,
  namei fuel sigma cur (a ++ b)
  = match namei fuel sigma cur a with
    | Some (k, f) => namei f sigma k b
    | None => None
    end.
Proof.
  induction fuel as [|fuel IHf]; induction a as [|c a IHa]; intros b cur.
  - rewrite namei_nil. reflexivity.
  - rewrite <- app_comm_cons, !namei_cons.
    destruct (node_at sigma cur) as [[| |]|]; try reflexivity.
    destruct (_ || _); [apply IHa|].
    destruct (String.eqb c ".."); [apply IHa|].
    destruct (sigma !! (cur ++ [c])) as [[| |text]|]; try reflexivity; apply IHa.
  - rewrite namei_nil. reflexivity.
  - rewrite <- app_comm_cons, !namei_cons.
    destruct (node_at sigma cur) as [[| |]|]; try reflexivity.
    destruct (_ || _); [apply IHa|].
    destruct (String.eqb c ".."); [apply IHa|].
    destruct (sigma !! (cur ++ [c])) as [[| |text]|]; try reflexivity;
      try apply IHa.
    destruct (String.eqb text ""); [reflexivity|].
    rewrite app_assoc. apply IHf.
Qed.

Lemma node_at_mono (sigma sigma' : gmap (list string) node) k x :
  sigma ⊆ sigma' -> node_at sigma k = Some x -> node_at sigma' k = Some x.
Proof.
  intros Hsub. destruct k as [|c k]; simpl; [tauto|].
  apply lookup_weaken_inv || (intros H; eapply lookup_weaken; eassumption).
Qed.

(** A resolution that succeeds still succeeds, with the same result, when
    entries are added to the store. *)
Lemma namei_mono (sigma sigma' : gmap (list string) node) :
  sigma ⊆ sigma' ->
  forall fuel comps cur r,
    namei fuel sigma cur comps = Some r -> namei fuel sigma' cur comps = Some r.
Proof.
  intros Hsub.
  induction fuel as [|fuel IHf]; induction comps as [|c comps IHc]; intros cur r;
    rewrite ?namei_nil; try (intros H; exact H); rewrite !namei_cons.
  - destruct (node_at sigma cur) as [[| |]|] eqn:Ecur; try discriminate.
    rewrite (node_at_mono _ _ _ _ Hsub Ecur).
    destruct (_ || _); [apply IHc|].
    destruct (String.eqb c ".."); [apply IHc|].
    destruct (sigma !! (cur ++ [c])) as [x|] eqn:El; [|discriminate].
    rewrite (lookup_weaken _ _ _ _ El Hsub).
    destruct x; try discriminate; apply IHc.
  - destruct (node_at sigma cur) as [[| |]|] eqn:Ecur; try discriminate.
    rewrite (node_at_mono _ _ _ _ Hsub Ecur).
    destruct (_ || _); [apply IHc|].
    destruct (String.eqb c ".."); [apply IHc|].
    destruct (sigma !! (cur ++ [c])) as [x|] eqn:El; [|discriminate].
    rewrite (lookup_weaken _ _ _ _ El Hsub).
    destruct x as [| |text]; try apply IHc.
    destruct (String.eqb text ""); [discriminate|]. apply IHf.
Qed.

(** A resolution that ends in a directory never looks at an entry that is
    neither a directory nor a link; it does not depend on what that entry
    holds. *)
Lemma namei_off (sigma sigma' : gmap (list string) node) k0 :
  sigma !! k0 <> Some Dir ->
  (forall t, sigma !! k0 <> Some (Link t)) ->
  (forall j, j <> k0 -> sigma' !! j = sigma !! j) ->
  forall fuel comps cur d f,
    namei fuel sigma cur comps = Some (d, f) ->
    node_at sigma d = Some Dir ->
    namei fuel sigma' cur comps = Some (d, f).
Proof.
  intros Hnd Hnl Hoff.
  assert (Hat : forall k, node_at sigma k = Some Dir -> node_at sigma' k = Some Dir).
  { intros [|c k]; simpl; [tauto|]. intros H. rewrite Hoff; [exact H|].
    intros E. rewrite E in H. exact (Hnd H). }
  assert (Hstep : forall fuel cur c rest d f,
             sigma !! (cur ++ [c]) = Some File \/ sigma !! (cur ++ [c]) = None ->
             namei fuel sigma (cur ++ [c]) rest = Some (d, f) ->
             node_at sigma d = Some Dir -> False).
  { intros fuel cur c rest d f Hfile Hrun Hd.
    assert (node_at sigma (cur ++ [c]) = sigma !! (cur ++ [c])) as E
        by (destruct cur; reflexivity).
    destruct rest as [|c' rest].
    - rewrite namei_nil in Hrun. injection Hrun as <- <-.
      rewrite E in Hd. destruct Hfile; congruence.
    - rewrite namei_cons, E in Hrun.
      destruct Hfile as [H|H]; rewrite H in Hrun; discriminate. }
  induction fuel as [|fuel IHf]; induction comps as [|c comps IHc];
    intros cur d f; rewrite ?namei_nil; try (intros H _; exact H);
    rewrite !namei_cons.
  - destruct (node_at sigma cur) as [[| |]|] eqn:Ecur; try discriminate.
    rewrite (Hat _ Ecur).
    destruct (_ || _); [apply IHc|].
    destruct (String.eqb c ".."); [apply IHc|].
    destruct (decide (cur ++ [c] = k0)) as [E|E].
    + destruct (sigma !! (cur ++ [c])) as [x|] eqn:El; [|discriminate].
      assert (x = File) as ->.
      { destruct x as [| |text]; [reflexivity | |]; exfalso; rewrite E in El;
          [exact (Hnd El) | exact (Hnl _ El)]. }
      intros Hrun Hd. exfalso. eapply Hstep; eauto.
    + rewrite (Hoff _ E).
      destruct (sigma !! (cur ++ [c])) as [[| |text]|]; try discriminate;
        apply IHc.
  - destruct (node_at sigma cur) as [[| |]|] eqn:Ecur; try discriminate.
    rewrite (Hat _ Ecur).
    destruct (_ || _); [apply IHc|].
    destruct (String.eqb c ".."); [apply IHc|].
    destruct (decide (cur ++ [c] = k0)) as [E|E].
    + destruct (sigma !! (cur ++ [c])) as [x|] eqn:El; [|discriminate].
      assert (x = File) as ->.
      { destruct x as [| |text]; [reflexivity | |]; exfalso; rewrite E in El;
          [exact (Hnd El) | exact (Hnl _ El)]. }
      intros Hrun Hd. exfalso. eapply Hstep; eauto.
    + rewrite (Hoff _ E).
      destruct (sigma !! (cur ++ [c])) as [[| |text]|]; try discriminate;
        try apply IHc.
      destruct (String.eqb text ""); [discriminate|]. apply IHf.
Qed.

(** *** Entries *)

Lemma has_final_name_nonempty p : has_final_name p = true -> p <> "".
Proof. intros H ->. discriminate H. Qed.

Lemma split_sep_last p :
  split_sep p = removelast (split_sep p) ++ [os_path_basename p].
Proof. apply app_removelast_last, split_sep_nonempty. Qed.

(** The parts of an entry: the directory that the directory part of the
    path leads to, and the final name. *)
Lemma entry_of_inv sigma from p k :
  entry_of sigma from p = Some k ->
  has_final_name p = true
  /\ exists dir f,
       namei MAXSYMLINKS sigma (start_of from p) (removelast (split_sep p))
       = Some (dir, f)
       /\ node_at sigma dir = Some Dir
       /\ k = dir ++ [os_path_basename p].
Proof.
  unfold entry_of, entry_with. destruct (has_final_name p); [|discriminate].
  destruct (namei _ _ _ _) as [[dir f]|]; [|discriminate].
  destruct (node_at sigma dir) as [[| |]|] eqn:Ed; try discriminate.
  intros H. injection H as <-. split; [reflexivity|].
  exists dir, f. repeat split. exact Ed.
Qed.

Lemma entry_of_intro sigma from p dir f :
  has_final_name p = true ->
  namei MAXSYMLINKS sigma (start_of from p) (removelast (split_sep p))
  = Some (dir, f) ->
  node_at sigma dir = Some Dir ->
  entry_of sigma from p = Some (dir ++ [os_path_basename p]).
Proof.
  intros Hn Hr Hd. unfold entry_of, entry_with. rewrite Hn, Hr, Hd. reflexivity.
Qed.

Lemma entry_of_name sigma from p k :
  entry_of sigma from p = Some k -> exists dir, k = dir ++ [os_path_basename p].
Proof.
  intros H. destruct (entry_of_inv _ _ _ _ H) as (_ & dir & f & _ & _ & ->).
  exists dir. reflexivity.
Qed.

Lemma entry_of_mono (sigma sigma' : gmap (list string) node) from p k :
  sigma ⊆ sigma' -> entry_of sigma from p = Some k -> entry_of sigma' from p = Some k.
Proof.
  intros Hsub H.
  destruct (entry_of_inv _ _ _ _ H) as (Hn & dir & f & Hr & Hd & ->).
  eapply entry_of_intro; [exact Hn | | eapply node_at_mono; eassumption].
  eapply namei_mono; eassumption.
Qed.

Lemma entry_of_off (sigma sigma' : gmap (list string) node) k0 from p k :
  sigma !! k0 <> Some Dir ->
  (forall t, sigma !! k0 <> Some (Link t)) ->
  (forall j, j <> k0 -> sigma' !! j = sigma !! j) ->
  entry_of sigma from p = Some k -> entry_of sigma' from p = Some k.
Proof.
  intros Hnd Hnl Hoff H.
  destruct (entry_of_inv _ _ _ _ H) as (Hn & dir & f & Hr & Hd & ->).
  eapply entry_of_intro; [exact Hn | |].
  - eapply namei_off; eassumption.
  - destruct dir as [|c dir]; [reflexivity|]. simpl in *.
    rewrite Hoff; [exact Hd|]. intros E. rewrite E in Hd. exact (Hnd Hd).
Qed.

(** Following links changes nothing for an entry that is not a link. *)
Lemma stat_of_entry sigma from p k :
  entry_of sigma from p = Some k ->
  (forall t, sigma !! k <> Some (Link t)) ->
  stat sigma from p = sigma !! k.
Proof.
  intros H Hnl.
  destruct (entry_of_inv _ _ _ _ H) as (Hn & dir & f & Hr & Hd & ->).
  unfold stat. rewrite (proj2 (String.eqb_neq _ _) (has_final_name_nonempty _ Hn)).
  rewrite (split_sep_last p), namei_app, Hr, namei_cons, Hd.
  unfold has_final_name in Hn. apply negb_true_iff in Hn.
  apply orb_false_iff in Hn as [Hn Hn3]. rewrite Hn, Hn3.
  destruct (sigma !! (dir ++ [os_path_basename p])) as [x|] eqn:El; [|reflexivity].
  assert (Hk : node_at sigma (dir ++ [os_path_basename p]) = Some x)
    by (destruct dir; exact El).
  destruct x as [| |t]; rewrite ?namei_nil, ?Hk; try reflexivity.
  exfalso. exact (Hnl t eq_refl).
Qed.

Lemma lstat_of_entry sigma from p k :
  entry_of sigma from p = Some k -> lstat sigma from p = sigma !! k.
Proof.
  intros H. unfold lstat. rewrite H.
  destruct (entry_of_inv _ _ _ _ H) as (-> & _). reflexivity.
Qed.

Lemma entry_of_no_name sigma from p :
  has_final_name p = false -> entry_of sigma from p = None.
Proof. intros H. unfold entry_of, entry_with. rewrite H. reflexivity. Qed.

(** What [os.path.exists] and [os.path.islink] answer for a path that names
    an entry. *)
Lemma exists_or_islink w p k :
  entry w p = Some k ->
  path_exists w p || path_islink w p = bool_decide (is_Some (fs w !! k)).
Proof.
  intros H. unfold path_exists, path_islink.
  rewrite (lstat_of_entry _ _ _ _ H).
  destruct (fs w !! k) as [x|] eqn:El.
  - rewrite (bool_decide_eq_true_2 (is_Some (Some x))) by (eexists; reflexivity).
    destruct x as [| |t]; [| |apply orb_true_r];
      rewrite (stat_of_entry _ _ _ _ H) by (intros t; rewrite El; discriminate);
      rewrite El; reflexivity.
  - rewrite (stat_of_entry _ _ _ _ H) by (intros t; rewrite El; discriminate).
    rewrite El. reflexivity.
Qed.

(** *** Creating the destination *)

Lemma mkdir_only_refl w : mkdir_only w w.
Proof.
  split; [split; reflexivity | intros k _; reflexivity |].
  exists []. rewrite app_nil_r. split; reflexivity.
Qed.

Lemma mkdir_only_trans w1 w2 w3 :
  mkdir_only w1 w2 -> mkdir_only w2 w3 -> mkdir_only w1 w3.
Proof.
  intros [[Hc1 Ho1] Hk1 (c1 & Hj1 & Hl1)] [[Hc2 Ho2] Hk2 (c2 & Hj2 & Hl2)].
  split.
  - split; congruence.
  - intros k Hk. rewrite Hk2; [apply Hk1, Hk|]. rewrite Hk1; exact Hk.
  - exists (c1 ++ c2). rewrite Hj2, Hj1, <- app_assoc, links_in_app, Hl1, Hl2.
    split; reflexivity.
Qed.

Lemma os_mkdir_only w0 path w :
  mkdir_only w0 w -> sat (os_mkdir path) w (creates_dirs w0).
Proof.
  intros H0. unfold sat, os_mkdir, creates_dirs.
  destruct (entry w (rstrip_sep path)) as [k|];
    [|split; [exact H0 | right; reflexivity]].
  destruct (fs w !! k) as [x|] eqn:E; simpl;
    [split; [exact H0 | right; reflexivity]|].
  split; [|left; reflexivity].
  apply (mkdir_only_trans _ _ _ H0). split; simpl.
  - split; reflexivity.
  - intros j Hj. apply lookup_insert_ne. intros ->. rewrite E in Hj.
    destruct Hj; discriminate.
  - exists [SysMkdir path]. split; reflexivity.
Qed.

Lemma makedirs_step_only recurse :
  (forall name w0 w, mkdir_only w0 w -> sat (recurse name) w (creates_dirs w0)) ->
  forall name w0 w,
    mkdir_only w0 w -> sat (makedirs_step recurse name) w (creates_dirs w0).
Proof.
  intros Hrec name w0 w H0. unfold makedirs_step.
  apply sat_bind, sat_exists, sat_bind.
  match goal with |- context [if ?c then _ else _] => destruct c end.
  - apply sat_bind. unfold sat at 1, try_pass.
    match goal with |- context [recurse ?h w] =>
      pose proof (Hrec h w0 w H0) as Hr; unfold sat, creates_dirs in Hr;
      destruct (recurse h w) as [r1 w1] end.
    simpl in Hr. destruct Hr as [Hm [-> | ->]]; simpl.
    + apply sat_ret.
      match goal with |- context [if ?c then _ else _] => destruct c end.
      * apply sat_ret. split; [exact Hm | left; reflexivity].
      * apply os_mkdir_only, Hm.
    + apply sat_ret.
      match goal with |- context [if ?c then _ else _] => destruct c end.
      * apply sat_ret. split; [exact Hm | left; reflexivity].
      * apply os_mkdir_only, Hm.
  - apply sat_ret. apply os_mkdir_only, H0.
Qed.

Lemma makedirs_fuel_only fuel : forall name w0 w,
  mkdir_only w0 w -> sat (makedirs_fuel fuel name) w (creates_dirs w0).
Proof.
  induction fuel as [|fuel IH]; intros name w0 w H0; simpl;
    apply makedirs_step_only; try exact H0; try exact IH.
  intros name' w0' w' H'. apply sat_ret. split; [exact H' | left; reflexivity].
Qed.

(** [ensure_folder] gives the absolute destination and creates at most
    directories. *)
Lemma ensure_folder_only folder_path w :
  sat (ensure_folder folder_path) w
      (fun r w' =>
         mkdir_only w w'
         /\ (r = Ok (os_path_abspath (cwd w) folder_path) \/ r = Raise OSError)).
Proof.
  unfold ensure_folder.
  apply sat_bind, sat_getcwd, sat_bind, sat_exists, sat_bind.
  destruct (negb _).
  - eapply sat_weaken; [apply makedirs_fuel_only, mkdir_only_refl|].
    intros r w' [Hm [-> | ->]].
    + apply sat_ret. split; [exact Hm | left; reflexivity].
    + split; [exact Hm | right; reflexivity].
  - apply sat_ret, sat_ret. split; [apply mkdir_only_refl | left; reflexivity].
Qed.

(** *** One file of the list *)

Lemma same_cwd w w' : cwd_parts w' = cwd_parts w -> cwd w' = cwd w.
Proof. unfold cwd. intros ->. reflexivity. Qed.

(** The loop body does exactly one of the five things of [turn]. *)
Lemma sync_one_turn folder_path file_name n w :
  sat (sync_one folder_path file_name n) w (turn folder_path file_name n w).
Proof.
  unfold sync_one.
  apply sat_bind, sat_getcwd, sat_bind, sat_exists.
  destruct (path_exists w (os_path_abspath (cwd w) file_name)) eqn:E;
    [|apply sat_ret, turn_skip, E].
  apply sat_bind, sat_exists, sat_bind, sat_islink.
  change (os_path_join folder_path
            (os_path_basename (os_path_abspath (cwd w) file_name)))
    with (destination_of (cwd w) folder_path file_name).
  set (dest := destination_of (cwd w) folder_path file_name).
  set (target := os_path_abspath (cwd w) file_name) in *.
  assert (Htarget : String.eqb target "" = false)
    by (apply abspath_nonempty; reflexivity).
  destruct (entry w dest) as [k|] eqn:Ek.
  - rewrite (exists_or_islink _ _ _ Ek).
    destruct (fs w !! k) as [x|] eqn:El.
    + rewrite bool_decide_eq_true_2 by (eexists; reflexivity).
      apply sat_bind. unfold sat at 1, os_remove. rewrite Ek, El.
      assert (Hgo : (fs w !! k = Some File
                     \/ exists old, fs w !! k = Some (Link old)) ->
                    sat (do os_symlink target dest then ret (n + 1)%Z)
                        (set_fs w (delete k (fs w)) (SysRemove dest))
                        (turn folder_path file_name n w)).
      { intros Hold. apply sat_bind. unfold sat at 1, os_symlink.
        rewrite Htarget.
        change (entry (set_fs w (delete k (fs w)) (SysRemove dest)) dest)
          with (entry_of (delete k (fs w)) (cwd_parts w) dest).
        destruct (entry_of (delete k (fs w)) (cwd_parts w) dest) as [k'|] eqn:Ek'.
        - assert (k' = k) as ->.
          { pose proof (entry_of_mono _ _ _ _ _ (delete_subseteq _ _) Ek') as H.
            unfold entry in Ek. congruence. }
          simpl. rewrite lookup_delete_eq. simpl.
          apply sat_ret. apply turn_replaced; assumption.
        - simpl. apply turn_removed; assumption. }
      destruct x as [| |old]; simpl.
      * apply Hgo. left. exact El.
      * apply turn_blocked; [exact E|]. right. exists k. split; assumption.
      * apply Hgo. right. exists old. exact El.
    + rewrite bool_decide_eq_false_2 by (intros [x Hx]; discriminate).
      apply sat_bind, sat_ret, sat_bind. unfold sat at 1, os_symlink.
      rewrite Htarget, Ek, El. simpl. apply sat_ret.
      apply turn_created; assumption.
  - assert (Hblock : turn folder_path file_name n w (Raise OSError) w)
      by (apply turn_blocked; [exact E | left; exact Ek]).
    destruct (path_exists w dest || path_islink w dest); apply sat_bind.
    + unfold sat at 1, os_remove. rewrite Ek. simpl. exact Hblock.
    + apply sat_ret, sat_bind. unfold sat at 1, os_symlink.
      rewrite Htarget, Ek. simpl. exact Hblock.
Qed.

Lemma sync_one_turn_run folder_path file_name n w r w' :
  sync_one folder_path file_name n w = (r, w') ->
  turn folder_path file_name n w r w'.
Proof. intros H. exact (sat_run _ _ _ _ _ H (sync_one_turn _ _ _ _)). Qed.

(** The world decides which of the five it is. *)
Lemma turn_functional folder_path file_name n w r1 w1 r2 w2 :
  turn folder_path file_name n w r1 w1 ->
  turn folder_path file_name n w r2 w2 ->
  r1 = r2 /\ w1 = w2.
Proof.
  intros H1 H2.
  destruct H1 as [E1|d1 E1 B1|k1 d1 E1 K1 O1 F1|k1 t1 d1 E1 K1 N1
                  |k1 t1 d1 E1 K1 O1 F1];
    destruct H2 as [E2|d2 E2 B2|k2 d2 E2 K2 O2 F2|k2 t2 d2 E2 K2 N2
                    |k2 t2 d2 E2 K2 O2 F2];
    try subst d1; try subst d2; try subst t1; try subst t2;
    try (split; reflexivity); try congruence;
    try (assert (k1 = k2) as -> by congruence);
    try (split; reflexivity); exfalso;
    repeat match goal with
           | H : _ \/ _ |- _ => destruct H
           | H : exists _, _ |- _ => destruct H
           | H : _ /\ _ |- _ => destruct H
           end; congruence.
Qed.

Lemma sync_one_is folder_path file_name n w r w' :
  turn folder_path file_name n w r w' ->
  sync_one folder_path file_name n w = (r, w').
Proof.
  intros H. destruct (sync_one folder_path file_name n w) as [r0 w0] eqn:E.
  apply sync_one_turn_run in E.
  destruct (turn_functional _ _ _ _ _ _ _ _ E H) as [-> ->]. reflexivity.
Qed.

Lemma turn_counted folder_path file_name n w r w' :
  turn folder_path file_name n w r w' -> counted n w r w'.
Proof.
  intros H. destruct H; (split; [split; reflexivity|]).
  - exists []. rewrite app_nil_r. simpl. split; [reflexivity | lia].
  - exists []. rewrite app_nil_r. split; reflexivity.
  - eexists. split; reflexivity.
  - eexists. split; reflexivity.
  - eexists. simpl. rewrite <- app_assoc. split; reflexivity.
Qed.

(** A turn changes at most the entry that the destination of its file
    names, and only when the source exists. *)
Lemma turn_changed folder_path file_name n w r w' j :
  turn folder_path file_name n w r w' ->
  fs w' !! j <> fs w !! j ->
  path_exists w (os_path_abspath (cwd w) file_name) = true
  /\ entry w (destination_of (cwd w) folder_path file_name) = Some j.
Proof.
  intros H Hch.
  destruct H as [E|d E B|k d E K O F|k t d E K N|k t d E K O F];
    try (exfalso; apply Hch; reflexivity);
    (split; [exact E|]); subst d; rewrite K; f_equal;
    destruct (decide (k = j)) as [Hk|Hk]; try exact Hk;
    exfalso; apply Hch; simpl.
  - apply lookup_delete_ne, Hk.
  - apply lookup_insert_ne, Hk.
  - rewrite lookup_insert_ne, lookup_delete_ne by exact Hk. reflexivity.
Qed.

Lemma turn_keeps folder_path file_name n w r w' :
  turn folder_path file_name n w r w' ->
  turn_kept folder_path file_name n w r w'.
Proof.
  assert (Hrm : is_sync_call (cwd w) folder_path [file_name]
                  (SysRemove (destination_of (cwd w) folder_path file_name))).
  { exists file_name. split; [left; reflexivity | left; reflexivity]. }
  assert (Hln : is_sync_call (cwd w) folder_path [file_name]
                  (SysSymlink (os_path_abspath (cwd w) file_name)
                     (destination_of (cwd w) folder_path file_name))).
  { exists file_name. split; [left; reflexivity | right; reflexivity]. }
  intros H. destruct H as [E|d E B|k d E K O F|k t d E K N|k t d E K O F].
  - split; [split; reflexivity | tauto |].
    exists []. rewrite app_nil_r. repeat split; [constructor | simpl; lia].
  - split; [split; reflexivity | tauto |].
    exists []. rewrite app_nil_r. repeat split; [constructor | simpl; lia].
  - split; [split; reflexivity | |].
    + intros j Hj. simpl. rewrite lookup_delete_ne; [exact Hj|].
      intros <-. destruct O as [H | [old H]]; congruence.
    + exists [SysRemove d]. simpl. repeat split; [|lia].
      constructor; [exact Hrm | constructor].
  - split; [split; reflexivity | |].
    + intros j Hj. simpl. rewrite lookup_insert_ne; [exact Hj|].
      intros <-. congruence.
    + exists [SysSymlink t d]. simpl. repeat split; [|lia].
      constructor; [exact Hln | constructor].
  - split; [split; reflexivity | |].
    + intros j Hj. simpl.
      assert (k <> j)
        by (intros <-; destruct O as [H | [old H]]; congruence).
      rewrite lookup_insert_ne, lookup_delete_ne by assumption. exact Hj.
    + exists [SysRemove d; SysSymlink t d]. simpl.
      rewrite <- app_assoc. repeat split; [|lia].
      constructor; [exact Hrm | constructor; [exact Hln | constructor]].
Qed.

Lemma sync_one_skip folder_path file_name n w :
  path_exists w (os_path_abspath (cwd w) file_name) = false ->
  sync_one folder_path file_name n w = (Ok n, w).
Proof. intros H. apply sync_one_is, turn_skip, H. Qed.

(** *** The loop *)

Lemma for_each_app {A B} (l1 l2 : list A) (body : A -> B -> M B) :
  forall acc w,
    for_each (l1 ++ l2) acc body w
    = match for_each l1 acc body w with
      | (Ok acc', w') => for_each l2 acc' body w'
      | (Raise e, w') => (Raise e, w')
      end.
Proof.
  induction l1 as [|x l1 IH]; intros acc w; simpl; [reflexivity|].
  unfold bind. destruct (body x acc w) as [[acc'|e] w']; [apply IH | reflexivity].
Qed.

Lemma sync_loop_counted folder_path file_list : forall n w,
  sat (for_each file_list n (sync_one folder_path)) w (counted n w).
Proof.
  induction file_list as [|f fl IH]; intros n w; simpl.
  - apply sat_ret. split; [split; reflexivity|]. exists []. rewrite app_nil_r.
    simpl. split; [reflexivity | lia].
  - apply sat_bind. eapply sat_weaken; [apply sync_one_turn|].
    intros r1 w1 Hturn. apply turn_counted in Hturn.
    destruct Hturn as ([Hc1 Ho1] & c1 & Hj1 & Hr1).
    destruct r1 as [n1|e].
    + eapply sat_weaken; [apply IH|].
      intros r w2 ([Hc2 Ho2] & c2 & Hj2 & Hr2).
      split; [split; congruence|]. exists (c1 ++ c2).
      rewrite Hj2, Hj1, <- app_assoc. split; [reflexivity|].
      destruct r as [n2|e]; [|exact Hr2].
      rewrite links_in_app, length_app. lia.
    + split; [split; assumption|]. exists c1. split; assumption.
Qed.

(** An entry that the loop changed is the one that the destination of a
    file of the list named when its turn came, and the source of that file
    existed then. *)
Lemma sync_loop_changed folder_path k file_list : forall n w,
  sat (for_each file_list n (sync_one folder_path)) w
      (fun _ w' =>
         fs w' !! k <> fs w !! k ->
         exists pre f post n1 w1,
           file_list = pre ++ f :: post
           /\ for_each pre n (sync_one folder_path) w = (Ok n1, w1)
           /\ path_exists w1 (os_path_abspath (cwd w) f) = true
           /\ entry w1 (destination_of (cwd w) folder_path f) = Some k).
Proof.
  induction file_list as [|f fl IH]; intros n w; simpl.
  - apply sat_ret. intros H. congruence.
  - unfold sat, bind.
    destruct (sync_one folder_path f n w) as [r w1] eqn:Erun.
    pose proof (sync_one_turn_run _ _ _ _ _ _ Erun) as Hturn.
    pose proof (turn_changed _ _ _ _ _ _ k Hturn) as Hone.
    pose proof (turn_counted _ _ _ _ _ _ Hturn) as [[Hc _] _].
    apply same_cwd in Hc.
    assert (Hhere : fs w1 !! k <> fs w !! k ->
                    exists pre f0 post n1 w0,
                      f :: fl = pre ++ f0 :: post
                      /\ for_each pre n (sync_one folder_path) w = (Ok n1, w0)
                      /\ path_exists w0 (os_path_abspath (cwd w) f0) = true
                      /\ entry w0 (destination_of (cwd w) folder_path f0) = Some k).
    { intros Hch. destruct (Hone Hch) as [Hex Hk].
      exists [], f, fl, n, w. repeat split; assumption. }
    destruct r as [n1|e]; [|exact Hhere].
    pose proof (IH n1 w1) as Hrest. unfold sat in Hrest.
    destruct (for_each fl n1 (sync_one folder_path) w1) as [r2 w2].
    simpl in *. intros Hch.
    destruct (decide (fs w1 !! k = fs w !! k)) as [Hsame|Hdiff];
      [|apply Hhere, Hdiff].
    rewrite <- Hsame in Hch.
    destruct (Hrest Hch) as (pre & f0 & post & n2 & w0 & -> & Hrun & Hex & Hk).
    rewrite Hc in Hex, Hk.
    exists (f :: pre), f0, post, n2, w0. repeat split; try assumption.
    simpl. erewrite bind_ok; [exact Hrun | exact Erun].
Qed.

Lemma is_sync_call_incl cwd folder_path l1 l2 c :
  incl l1 l2 -> is_sync_call cwd folder_path l1 c -> is_sync_call cwd folder_path l2 c.
Proof. intros Hincl (f & Hf & Hc). exists f. split; [apply Hincl, Hf | exact Hc]. Qed.

Lemma sync_loop_kept folder_path file_list : forall n w,
  sat (for_each file_list n (sync_one folder_path)) w
      (fun _ w' => loop_kept folder_path file_list w w').
Proof.
  induction file_list as [|f fl IH]; intros n w; simpl.
  - apply sat_ret. split; [split; reflexivity | tauto |].
    exists []. rewrite app_nil_r. repeat split; [constructor | simpl; lia].
  - apply sat_bind. eapply sat_weaken; [apply sync_one_turn|].
    intros r w1 Hturn.
    destruct (turn_keeps _ _ _ _ _ _ Hturn) as [[Hc1 Ho1] Hd1 (c1 & Hj1 & Hf1 & Hn1)].
    assert (Hfirst : loop_kept folder_path (f :: fl) w w1).
    { split; [split; assumption | exact Hd1 |].
      exists c1. split; [exact Hj1|]. split; [|simpl; lia].
      eapply Forall_impl; [exact Hf1|].
      intros c. apply is_sync_call_incl. intros x [<-|[]]. left. reflexivity. }
    destruct r as [n1|e]; [|exact Hfirst].
    eapply sat_weaken; [apply IH|]. intros r2 w2 [[Hc2 Ho2] Hd2 (c2 & Hj2 & Hf2 & Hn2)].
    split; [split; congruence | intros k Hk; apply Hd2, Hd1, Hk |].
    exists (c1 ++ c2). rewrite Hj2, Hj1, <- app_assoc. split; [reflexivity|].
    split.
    + apply Forall_app. split.
      * eapply Forall_impl; [exact Hf1|].
        intros c. apply is_sync_call_incl. intros x [<-|[]]. left. reflexivity.
      * rewrite (same_cwd _ _ Hc1) in Hf2. eapply Forall_impl; [exact Hf2|].
        intros c. apply is_sync_call_incl. intros x Hx. right. exact Hx.
    + rewrite links_in_app, length_app. simpl. lia.
Qed.

(** *** The whole call *)

Lemma populate_unfold file_list folder_path w :
  populate_with_symlinks file_list folder_path w
  = match ensure_folder folder_path w with
    | (Ok folder, wa) =>
        match for_each file_list 0%Z (sync_one folder) wa with
        | (Ok n, wb) => (Ok PyNone, with_line wb (total_line n))
        | (Raise e, wb) => (Raise e, wb)
        end
    | (Raise e, wa) => (Raise e, wa)
    end.
Proof.
  unfold populate_with_symlinks, bind.
  destruct (ensure_folder folder_path w) as [[folder|e] wa]; [|reflexivity].
  destruct (for_each file_list 0%Z (sync_one folder) wa) as [[n|e] wb];
    reflexivity.
Qed.

(** The parts of a run that completes: [ensure_folder], then the loop. *)
Lemma populate_ok_parts file_list folder_path w v w1 :
  populate_with_symlinks file_list folder_path w = (Ok v, w1) ->
  exists wa n wb,
    ensure_folder folder_path w = (Ok (os_path_abspath (cwd w) folder_path), wa)
    /\ mkdir_only w wa
    /\ for_each file_list 0%Z (sync_one (os_path_abspath (cwd w) folder_path)) wa
       = (Ok n, wb)
    /\ cwd_parts wb = cwd_parts w /\ cwd wa = cwd w /\ stdout wb = stdout w
    /\ v = PyNone /\ w1 = with_line wb (total_line n).
Proof.
  rewrite populate_unfold. intros H.
  pose proof (ensure_folder_only folder_path w) as He. unfold sat in He.
  destruct (ensure_folder folder_path w) as [[folder|e] wa]; [|discriminate].
  simpl in He. destruct He as [Hm [Hf|Hf]]; [|discriminate].
  injection Hf as ->.
  pose proof (sync_loop_counted (os_path_abspath (cwd w) folder_path)
                file_list 0%Z wa) as Hl. unfold sat in Hl.
  destruct (for_each file_list 0%Z _ wa) as [[n|e] wb] eqn:El; [|discriminate].
  simpl in Hl. destruct Hl as [[Hc Ho] _].
  injection H as <- <-.
  destruct Hm as [[Hca Hoa] Hk Hcalls].
  exists wa, n, wb.
  split; [reflexivity|]. split; [split; [split|..]; assumption|].
  split; [exact El|]. split; [congruence|]. split; [apply same_cwd, Hca|].
  split; [congruence|]. split; reflexivity.
Qed.

Lemma populate_turn pre file_name post folder_path w wa n wb :
  ensure_folder folder_path w = (Ok (os_path_abspath (cwd w) folder_path), wa) ->
  for_each pre 0%Z (sync_one (os_path_abspath (cwd w) folder_path)) wa = (Ok n, wb) ->
  populate_with_symlinks (pre ++ file_name :: post) folder_path w
  = match sync_one (os_path_abspath (cwd w) folder_path) file_name n wb with
    | (Ok n', w2) => finish (os_path_abspath (cwd w) folder_path) post n' w2
    | (Raise e, w2) => (Raise e, w2)
    end.
Proof.
  intros He Hl. rewrite populate_unfold, He, for_each_app, Hl. simpl.
  unfold bind, finish.
  destruct (sync_one _ file_name n wb) as [[n'|e] w2]; reflexivity.
Qed.

(** The entry that the destination of a file names carries the base name
    of the absolute path of the file. *)
Lemma destination_last w c folder_path file_name k :
  entry w (destination_of c folder_path file_name) = Some k ->
  exists dir, k = dir ++ [os_path_basename (os_path_abspath c file_name)].
Proof.
  intros H. destruct (entry_of_name _ _ _ _ H) as [dir ->]. exists dir.
  unfold destination_of. rewrite basename_join by apply basename_sep_free.
  reflexivity.
Qed.

(** What the rest of a call, after some turn, does and keeps. *)
Lemma finish_facts folder post n w2 :
  (exists later, journal (snd (finish folder post n w2)) = journal w2 ++ later)
  /\ (forall k, (forall g, g ∈ post ->
                   os_path_basename (os_path_abspath (cwd w2) g) <> List.last k "") ->
                fs (snd (finish folder post n w2)) !! k = fs w2 !! k)
  /\ (forall k, fs w2 !! k = Some Dir ->
                fs (snd (finish folder post n w2)) !! k = Some Dir).
Proof.
  unfold finish.
  pose proof (sync_loop_kept folder post n w2) as Hk.
  pose proof (fun k => sync_loop_changed folder k post n w2) as Hch.
  unfold sat in Hk, Hch.
  destruct (for_each post n (sync_one folder) w2) as [r w3].
  simpl in Hk, Hch. destruct Hk as [_ Hd (calls & Hj & _)].
  assert (Hfs : fs (snd (match r with
                         | Ok m => (Ok PyNone, with_line w3 (total_line m))
                         | Raise e => (Raise e, w3)
                         end)) = fs w3) by (destruct r; reflexivity).
  assert (Hjs : journal (snd (match r with
                              | Ok m => (Ok PyNone, with_line w3 (total_line m))
                              | Raise e => (Raise e : result pyval, w3)
                              end)) = journal w3) by (destruct r; reflexivity).
  rewrite Hfs, Hjs. split; [exists calls; exact Hj|]. split; [|exact Hd].
  intros k Hpost.
  destruct (decide (fs w3 !! k = fs w2 !! k)) as [Hsame|Hdiff]; [exact Hsame|].
  destruct (Hch k Hdiff) as (p & g & q & _ & w1 & -> & _ & _ & Hk).
  exfalso. apply (Hpost g); [apply elem_of_app; right; apply list_elem_of_here|].
  destruct (destination_last _ _ _ _ _ Hk) as [dir ->].
  rewrite last_last. reflexivity.
Qed.

(** C5, as the specification states it, fails: the call below creates one
    symbolic link, reports it on the console and returns [None], not the
    count. *)
Lemma populate_returns_none :
  let run := populate_with_symlinks ["/new/a.jpg"] "/d" Samples.sample_world in
  fst run = Ok PyNone
  /\ links_in (journal (snd run)) = [SysSymlink "/new/a.jpg" "/d/a.jpg"]
  /\ stdout (snd run) = ["Total symbolic links created: 1"]
  /\ fst run <> Ok (PyInt 1).
Proof. vm_compute. repeat split. discriminate. Qed.

(** C5, amended. [populate_with_symlinks] returns [None]; the count of the
    symbolic links it created during the call is what it prints, in its
    last line. When a system call fails it raises [OSError] and prints
    nothing. *)
Theorem populate_prints_count file_list folder_path w :
  let run := populate_with_symlinks file_list folder_path w in
  exists calls,
    journal (snd run) = journal w ++ calls
    /\ match fst run with
       | Ok v =>
           v = PyNone
           /\ stdout (snd run)
              = stdout w
                ++ ["Total symbolic links created: "
                      +:+ pretty (Z.of_nat (length (links_in calls)))]
       | Raise e => e = OSError /\ stdout (snd run) = stdout w
       end.
Proof.
  intros run. unfold run. rewrite populate_unfold.
  pose proof (ensure_folder_only folder_path w) as He. unfold sat in He.
  destruct (ensure_folder folder_path w) as [[folder|e] wa]; simpl in He.
  - destruct He as [[[_ Ho] _ (c0 & Hj0 & Hl0)] _].
    pose proof (sync_loop_counted folder file_list 0%Z wa) as Hl. unfold sat in Hl.
    destruct (for_each file_list 0%Z (sync_one folder) wa) as [[n|e] wb];
      simpl in Hl; destruct Hl as ([_ Ho1] & c1 & Hj1 & Hn); simpl.
    + exists (c0 ++ c1). rewrite Hj1, Hj0, <- app_assoc. split; [reflexivity|].
      split; [reflexivity|]. rewrite links_in_app, Hl0, Ho1, Ho, Hn. reflexivity.
    + exists (c0 ++ c1). rewrite Hj1, Hj0, <- app_assoc. split; [reflexivity|].
      split; [exact Hn | congruence].
  - destruct He as [[[_ Ho] _ (c0 & Hj0 & _)] [Hf|Hf]]; [discriminate|].
    injection Hf as ->. exists c0. simpl. repeat split; assumption.
Qed.

(** The system finds a source under every text that names it: with more
    separators than needed, through a link to its directory, or from the
    working directory. *)
Example exists_under_other_names :
  path_exists Samples.sample_world "//new///a.jpg" = true
  /\ path_exists Samples.linked_world "/dl/keep.txt" = true
  /\ path_exists Samples.linked_world "/dl/../new/./b.jpg" = true
  /\ path_exists Samples.linked_world "b.jpg" = true
  /\ path_exists Samples.linked_world "/dl/a.jpg" = false
  /\ path_islink Samples.linked_world "/dl/a.jpg" = true
  /\ path_exists Samples.linked_world "/new/a.jpg/" = false
  /\ path_exists Samples.linked_world "" = false
  /\ links_in (journal (snd (populate_with_symlinks ["//new/a.jpg"] "/d"
                               Samples.sample_world)))
     = [SysSymlink "//new/a.jpg" "/d/a.jpg"].
Proof. vm_compute. repeat split. Qed.

(** C9. A file of the list whose absolute path does not exist when its
    turn comes has no effect at all: the call ends as it does for the list
    without that file, with the same destination entries, the same count
    and the same outcome. *)
Theorem populate_skips_missing_source pre file_name post folder_path w v w1
    (Hpre : populate_with_symlinks pre folder_path w = (Ok v, w1))
    (Hmissing : path_exists w1 (os_path_abspath (cwd w) file_name) = false) :
  populate_with_symlinks (pre ++ file_name :: post) folder_path w
  = populate_with_symlinks (pre ++ post) folder_path w.
Proof.
  destruct (populate_ok_parts _ _ _ _ _ Hpre)
    as (wa & n & wb & He & _ & Hl & Hc & _ & _ & _ & ->).
  change (path_exists (with_line wb (total_line n))
            (os_path_abspath (cwd w) file_name))
    with (path_exists wb (os_path_abspath (cwd w) file_name)) in Hmissing.
  rewrite <- (same_cwd _ _ Hc) in Hmissing.
  rewrite !populate_unfold, He, !for_each_app, Hl. simpl.
  erewrite bind_ok; [reflexivity|]. apply sync_one_skip, Hmissing.
Qed.

Lemma populate_skips_missing_source_witness :
  let w1 := snd (populate_with_symlinks ["/new/a.jpg"] "/dl" Samples.linked_world) in
  populate_with_symlinks ["/new/a.jpg"] "/dl" Samples.linked_world = (Ok PyNone, w1)
  /\ path_exists w1 (os_path_abspath "/new" "../dl/c.jpg") = false
  /\ populate_with_symlinks (["/new/a.jpg"] ++ "../dl/c.jpg" :: ["b.jpg"])
       "/dl" Samples.linked_world
     = populate_with_symlinks (["/new/a.jpg"] ++ ["b.jpg"])
         "/dl" Samples.linked_world.
Proof.
  intros w1.
  assert (H1 : populate_with_symlinks ["/new/a.jpg"] "/dl" Samples.linked_world
               = (Ok PyNone, w1)) by (vm_compute; reflexivity).
  assert (H2 : path_exists w1 (os_path_abspath "/new" "../dl/c.jpg") = false)
    by (vm_compute; reflexivity).
  split; [exact H1|]. split; [exact H2|].
  exact (populate_skips_missing_source ["/new/a.jpg"] "../dl/c.jpg" ["b.jpg"]
           "/dl" Samples.linked_world PyNone w1 H1 H2).
Defined.

(** Removing a file from the store leaves every path to a directory as it
    was; so the entry of a destination is still the same once the file
    that was there is gone. *)
Lemma entry_of_delete_file (sigma : gmap (list string) node) k from p :
  sigma !! k = Some File ->
  entry_of sigma from p = Some k ->
  entry_of (delete k sigma) from p = Some k.
Proof.
  intros Hfile. apply (entry_of_off sigma (delete k sigma) k).
  - congruence.
  - congruence.
  - intros j Hj. apply lookup_delete_ne. congruence.
Qed.

(** An entry that is a file or a link is removed and replaced by a link to
    the source, provided that the destination still names the entry once
    it is removed. *)
Lemma sync_one_replace folder_path file_name n w k :
  let target := os_path_abspath (cwd w) file_name in
  let dest := destination_of (cwd w) folder_path file_name in
  path_exists w target = true ->
  entry w dest = Some k ->
  (fs w !! k = Some File
   \/ exists old, fs w !! k = Some (Link old)
                  /\ entry_of (delete k (fs w)) (cwd_parts w) dest = Some k) ->
  sync_one folder_path file_name n w
  = (Ok (n + 1)%Z,
     set_fs (set_fs w (delete k (fs w)) (SysRemove dest))
       (<[k := Link target]> (delete k (fs w))) (SysSymlink target dest)).
Proof.
  intros target dest Hsrc Hk Hold. apply sync_one_is.
  apply turn_replaced; try assumption.
  - destruct Hold as [H | (old & H & _)]; [left; exact H | right; exists old; exact H].
  - destruct Hold as [H | (old & _ & H)]; [|exact H].
    apply entry_of_delete_file; assumption.
Qed.

(** C8, as the specification states it, fails in three ways.
    - A file listed earlier can stop the call: with a directory [album] in
      the destination, the call for [/new/album] and [/new/a.jpg] raises
      [OSError] at the first file and the stale link [a.jpg] stays as it
      was, although [/new/a.jpg] exists.
    - Of two existing sources with the same base name only the later one
      is pointed at in the end.
    - The link may not be creatable once the old entry is removed: when the
      destination is reached through the old entry, a link, the entry is
      removed, the call raises [OSError] and nothing is put in its
      place. *)
Lemma populate_stale_entry_kept :
  (let run := populate_with_symlinks ["/new/album"; "/new/a.jpg"] "/d"
                Samples.crowded_world in
   path_exists Samples.crowded_world "/new/a.jpg" = true
   /\ fst run = Raise OSError
   /\ fs (snd run) !! ["d"; "a.jpg"] = Some (Link "/old/a.jpg"))
  /\ (let run := populate_with_symlinks ["/other/a.jpg"; "/new/a.jpg"] "/d"
                   Samples.crowded_world in
      path_exists Samples.crowded_world "/other/a.jpg" = true
      /\ fst run = Ok PyNone
      /\ fs (snd run) !! ["d"; "a.jpg"] = Some (Link "/new/a.jpg"))
  /\ (let run := populate_with_symlinks ["/src/bn"] "/real/bn/real"
                   Samples.knot_world in
      path_exists Samples.knot_world "/src/bn" = true
      /\ entry Samples.knot_world "/real/bn/real/bn" = Some ["real"; "bn"]
      /\ fs Samples.knot_world !! ["real"; "bn"] = Some (Link "/")
      /\ fst run = Raise OSError
      /\ journal (snd run) = [SysRemove "/real/bn/real/bn"]
      /\ fs (snd run) !! ["real"; "bn"] = None).
Proof. vm_compute. repeat split. Qed.

(** C8, amended. When the turn of a file whose source exists comes, the
    files before it having been processed without error, and the
    destination holds an entry with its base name that is a real file or a
    link, valid or broken (for a link: one that the path to the destination
    does not go through), that entry is removed and a symbolic link is
    created in its place whose text is the absolute path of the source;
    when no later file of the list has the same base name, the entry is
    that link once the call ends. *)
Theorem populate_replaces_entry pre file_name post folder_path w v w1 k :
  let target := os_path_abspath (cwd w) file_name in
  let folder := os_path_abspath (cwd w) folder_path in
  let dest := destination_of (cwd w) folder file_name in
  let run := populate_with_symlinks (pre ++ file_name :: post) folder_path w in
  populate_with_symlinks pre folder_path w = (Ok v, w1) ->
  path_exists w1 target = true ->
  entry w1 dest = Some k ->
  (fs w1 !! k = Some File
   \/ exists old, fs w1 !! k = Some (Link old)
                  /\ entry_of (delete k (fs w1)) (cwd_parts w1) dest = Some k) ->
  starts_with_sep target = true
  /\ (exists later,
        journal (snd run)
        = journal w1 ++ [SysRemove dest; SysSymlink target dest] ++ later)
  /\ ((forall g, g ∈ post ->
         os_path_basename (os_path_abspath (cwd w) g) <> os_path_basename target) ->
      fs (snd run) !! k = Some (Link target)).
Proof.
  intros target folder dest run Hpre Hsrc Hk Hold.
  split; [apply abspath_absolute; reflexivity|].
  destruct (populate_ok_parts _ _ _ _ _ Hpre)
    as (wa & n & wb & He & _ & Hl & Hc & _ & _ & _ & ->).
  pose proof (same_cwd _ _ Hc) as Hcwd.
  pose proof (sync_one_replace folder file_name n wb k) as Hone.
  simpl in Hone. rewrite Hcwd in Hone. specialize (Hone Hsrc Hk Hold).
  unfold run. rewrite (populate_turn _ _ _ _ _ _ _ _ He Hl).
  fold folder. rewrite Hone.
  match goal with |- context [finish ?f ?p ?m ?w2] =>
    destruct (finish_facts f p m w2) as ((later & Hj) & Hframe & _) end.
  split.
  - exists later. rewrite Hj. simpl. rewrite <- !app_assoc. reflexivity.
  - intros Hpost. rewrite Hframe; [simpl; apply lookup_insert_eq|].
    intros g Hg. destruct (destination_last _ _ _ _ _ Hk) as [dir ->].
    rewrite last_last. change (cwd (set_fs _ _ _)) with (cwd wb).
    rewrite Hcwd. apply Hpost, Hg.
Qed.

Lemma populate_replaces_entry_witness :
  let w1 := snd (populate_with_symlinks [] "/dl" Samples.linked_world) in
  let run := populate_with_symlinks ([] ++ "a.jpg" :: ["b.jpg"]) "/dl"
               Samples.linked_world in
  populate_with_symlinks [] "/dl" Samples.linked_world = (Ok PyNone, w1)
  /\ path_exists w1 "/new/a.jpg" = true
  /\ entry w1 "/dl/a.jpg" = Some ["d"; "a.jpg"]
  /\ fs w1 !! ["d"; "a.jpg"] = Some (Link "/old/a.jpg")
  /\ entry_of (delete ["d"; "a.jpg"] (fs w1)) (cwd_parts w1) "/dl/a.jpg"
     = Some ["d"; "a.jpg"]
  /\ starts_with_sep (os_path_abspath "/new" "a.jpg") = true
  /\ (exists later,
        journal (snd run)
        = journal w1
          ++ [SysRemove "/dl/a.jpg"; SysSymlink "/new/a.jpg" "/dl/a.jpg"] ++ later)
  /\ fs (snd run) !! ["d"; "a.jpg"] = Some (Link "/new/a.jpg").
Proof.
  intros w1 run.
  assert (H1 : populate_with_symlinks [] "/dl" Samples.linked_world
               = (Ok PyNone, w1)) by (vm_compute; reflexivity).
  assert (H2 : path_exists w1 "/new/a.jpg" = true) by (vm_compute; reflexivity).
  assert (H3 : entry w1 "/dl/a.jpg" = Some ["d"; "a.jpg"])
    by (vm_compute; reflexivity).
  assert (H4 : fs w1 !! ["d"; "a.jpg"] = Some (Link "/old/a.jpg"))
    by (vm_compute; reflexivity).
  assert (H5 : entry_of (delete ["d"; "a.jpg"] (fs w1)) (cwd_parts w1) "/dl/a.jpg"
               = Some ["d"; "a.jpg"]) by (vm_compute; reflexivity).
  assert (H6 : forall g, g ∈ ["b.jpg"] ->
                 os_path_basename (os_path_abspath "/new" g)
                 <> os_path_basename "/new/a.jpg").
  { intros g Hg. apply list_elem_of_singleton in Hg. subst g.
    vm_compute. discriminate. }
  pose proof (populate_replaces_entry [] "a.jpg" ["b.jpg"] "/dl"
                Samples.linked_world PyNone w1 ["d"; "a.jpg"] H1 H2 H3
                (or_intror (ex_intro _ "/old/a.jpg" (conj H4 H5))))
    as (Ha & Hj & Hf).
  repeat (split; [assumption|]). exact (Hf H6).
Defined.

(** C10. An entry that was present before the call and whose name is not
    the base name of the absolute path of a file of the list is left as it
    was; an entry that the call removed or changed is the one that the
    destination path of a file of the list named when the turn of that file
    came, its source existing then, and it carries the base name of that
    file. *)
Theorem populate_frame file_list folder_path w k :
  let folder := os_path_abspath (cwd w) folder_path in
  let run := populate_with_symlinks file_list folder_path w in
  is_Some (fs w !! k) ->
  ((forall f, f ∈ file_list ->
      os_path_basename (os_path_abspath (cwd w) f) <> List.last k "") ->
     fs (snd run) !! k = fs w !! k)
  /\ (fs (snd run) !! k <> fs w !! k ->
      exists pre f post v w1,
        file_list = pre ++ f :: post
        /\ populate_with_symlinks pre folder_path w = (Ok v, w1)
        /\ path_exists w1 (os_path_abspath (cwd w) f) = true
        /\ entry w1 (os_path_join folder
                       (os_path_basename (os_path_abspath (cwd w) f))) = Some k
        /\ exists dir, k = dir ++ [os_path_basename (os_path_abspath (cwd w) f)]).
Proof.
  intros folder run Hk. subst folder.
  set (folder := os_path_abspath (cwd w) folder_path) in *.
  assert (Hchanged :
            fs (snd run) !! k <> fs w !! k ->
            exists pre f post v w1,
              file_list = pre ++ f :: post
              /\ populate_with_symlinks pre folder_path w = (Ok v, w1)
              /\ path_exists w1 (os_path_abspath (cwd w) f) = true
              /\ entry w1 (destination_of (cwd w) folder f) = Some k
              /\ exists dir,
                   k = dir ++ [os_path_basename (os_path_abspath (cwd w) f)]).
  { unfold run. rewrite populate_unfold.
    pose proof (ensure_folder_only folder_path w) as He. unfold sat in He.
    destruct (ensure_folder folder_path w) as [[fd|e] wa] eqn:Ee; simpl in He.
    - destruct He as [[[Hc _] Hkeep _] [Hf|Hf]]; [|discriminate].
      injection Hf as ->. fold folder in Ee |- *.
      pose proof (sync_loop_changed folder k file_list 0%Z wa) as Hframe.
      unfold sat in Hframe.
      destruct (for_each file_list 0%Z (sync_one folder) wa) as [r wb] eqn:El.
      simpl in Hframe. rewrite (Hkeep k Hk), (same_cwd _ _ Hc) in Hframe.
      intros Hch.
      assert (Hch' : fs wb !! k <> fs w !! k) by (destruct r; exact Hch).
      destruct (Hframe Hch') as (pre & f & post & n1 & w1 & -> & Hrun & Hex & Hdest).
      exists pre, f, post, PyNone, (with_line w1 (total_line n1)).
      split; [reflexivity|]. split; [|split; [exact Hex|split; [exact Hdest|]]].
      + rewrite populate_unfold, Ee, Hrun. reflexivity.
      + exact (destination_last _ _ _ _ _ Hdest).
    - destruct He as [[_ Hkeep _] _]. simpl. intros Hch.
      exfalso. apply Hch, Hkeep, Hk. }
  split; [|exact Hchanged].
  intros Hother.
  destruct (decide (fs (snd run) !! k = fs w !! k)) as [Hsame|Hdiff];
    [exact Hsame|].
  destruct (Hchanged Hdiff) as (pre & f & post & _ & _ & -> & _ & _ & _ & dir & ->).
  exfalso. apply (Hother f); [apply elem_of_app; right; apply list_elem_of_here|].
  rewrite last_last. reflexivity.
Qed.

Lemma populate_frame_witness :
  let run := populate_with_symlinks ["a.jpg"; "/new/b.jpg"] "/dl"
               Samples.linked_world in
  (is_Some (fs Samples.linked_world !! ["d"; "keep.txt"])
   /\ (forall f, f ∈ ["a.jpg"; "/new/b.jpg"] ->
         os_path_basename (os_path_abspath "/new" f) <> "keep.txt")
   /\ fs (snd run) !! ["d"; "keep.txt"] = fs Samples.linked_world !! ["d"; "keep.txt"])
  /\ (is_Some (fs Samples.linked_world !! ["d"; "a.jpg"])
      /\ fs (snd run) !! ["d"; "a.jpg"] <> fs Samples.linked_world !! ["d"; "a.jpg"]
      /\ exists pre f post v w1,
           ["a.jpg"; "/new/b.jpg"] = pre ++ f :: post
           /\ populate_with_symlinks pre "/dl" Samples.linked_world = (Ok v, w1)
           /\ path_exists w1 (os_path_abspath "/new" f) = true
           /\ entry w1 (os_path_join "/dl"
                          (os_path_basename (os_path_abspath "/new" f)))
              = Some ["d"; "a.jpg"]
           /\ exists dir,
                ["d"; "a.jpg"]
                = dir ++ [os_path_basename (os_path_abspath "/new" f)]).
Proof.
  intros run. split.
  - assert (H1 : is_Some (fs Samples.linked_world !! ["d"; "keep.txt"]))
      by (exists File; vm_compute; reflexivity).
    assert (H2 : forall f, f ∈ ["a.jpg"; "/new/b.jpg"] ->
                   os_path_basename (os_path_abspath "/new" f) <> "keep.txt").
    { intros f Hf. apply elem_of_cons in Hf as [->|Hf];
        [vm_compute; discriminate|].
      apply list_elem_of_singleton in Hf. subst f. vm_compute. discriminate. }
    split; [exact H1|]. split; [exact H2|].
    exact (proj1 (populate_frame ["a.jpg"; "/new/b.jpg"] "/dl"
                    Samples.linked_world ["d"; "keep.txt"] H1) H2).
  - assert (H1 : is_Some (fs Samples.linked_world !! ["d"; "a.jpg"]))
      by (exists (Link "/old/a.jpg"); vm_compute; reflexivity).
    assert (H2 : fs (snd run) !! ["d"; "a.jpg"]
                 <> fs Samples.linked_world !! ["d"; "a.jpg"])
      by (vm_compute; discriminate).
    split; [exact H1|]. split; [exact H2|].
    exact (proj2 (populate_frame ["a.jpg"; "/new/b.jpg"] "/dl"
                    Samples.linked_world ["d"; "a.jpg"] H1) H2).
Defined.

End SynchronizerSpec.

(** ** Further properties of the batch partitioner *)

Module PartitionerMore.
Import Partitioner PartitionerSpec.

(** For a positive batch size the batches are the chunks of the table. *)
Lemma create_batches_chunks {A} (data : list A) (B : Z) :
  (0 < B)%Z ->
  create_batches data B
  = Ok (map (chunk (Z.to_nat B) data)
            (seq 0 (Z.to_nat (ceil_div (Z.of_nat (length data)) B)))).
Proof.
  intros HB. set (n := Z.of_nat (length data)).
  pose proof (range_length_ceil n B ltac:(lia) HB) as Hq.
  pose proof (ceil_div_spec n B ltac:(lia) HB) as Hc.
  unfold create_batches, py_range. fold n.
  destruct (Z.eqb_spec B 0); [lia|]. rewrite Hq.
  rewrite map_map. f_equal. apply map_ext_in.
  intros k Hk. apply in_seq in Hk.
  apply iloc_chunk; [exact HB|]. fold n. nia.
Qed.

Lemma ceil_div_exact (m B : Z) :
  (0 <= m)%Z -> (0 < B)%Z -> forall n, (0 <= n)%Z ->
  ceil_div (m * B + n) B = (m + ceil_div n B)%Z.
Proof.
  intros Hm HB n Hn. unfold ceil_div.
  replace (m * B + n + B - 1)%Z with (n + B - 1 + m * B)%Z by lia.
  rewrite Z.div_add by lia. lia.
Qed.

Lemma ceil_div_nonneg (n B : Z) : (0 <= n)%Z -> (0 < B)%Z -> (0 <= ceil_div n B)%Z.
Proof. intros Hn HB. unfold ceil_div. apply Z.div_pos; lia. Qed.

Lemma map_seq_shift {A} (f : nat -> A) m : forall len start,
  map f (seq (m + start) len) = map (fun j => f (m + j)) (seq start len).
Proof.
  induction len as [|len IH]; intros start; simpl; [reflexivity|].
  f_equal. rewrite <- IH. f_equal. f_equal. lia.
Qed.

Lemma chunk_app_l {A} b (a c : list A) k :
  S k * b <= length a -> chunk b (a ++ c) k = chunk b a k.
Proof.
  intros H. unfold chunk.
  rewrite drop_app_le by lia. rewrite take_app_le; [reflexivity|].
  rewrite length_drop. lia.
Qed.

Lemma chunk_app_r {A} b m (a c : list A) j :
  length a = m * b -> chunk b (a ++ c) (m + j) = chunk b c j.
Proof.
  intros H. unfold chunk.
  rewrite drop_app_ge by lia. do 2 f_equal. lia.
Qed.

(** X1. For a positive batch size no batch is empty and no batch has more
    rows than the batch size. *)
Theorem create_batches_sizes {A} (data : list A) (B : Z) batches batch
    (HB : (0 < B)%Z)
    (Hrun : create_batches data B = Ok batches)
    (Hin : In batch batches) :
  (0 < Z.of_nat (length batch) <= B)%Z.
Proof.
  rewrite (create_batches_chunks data B HB) in Hrun. injection Hrun as <-.
  apply in_map_iff in Hin as (k & <- & Hk). apply in_seq in Hk.
  pose proof (ceil_div_spec (Z.of_nat (length data)) B ltac:(lia) HB) as Hc.
  unfold chunk. rewrite length_take, length_drop. nia.
Qed.

Lemma create_batches_sizes_witness :
  (0 < 3)%Z
  /\ create_batches [10; 20; 30; 40; 50; 60; 70]%Z 3
     = Ok [[10; 20; 30]; [40; 50; 60]; [70]]%Z
  /\ In [70]%Z [[10; 20; 30]; [40; 50; 60]; [70]]%Z
  /\ (0 < Z.of_nat (length [70]%Z) <= 3)%Z.
Proof.
  assert (H1 : (0 < 3)%Z) by lia.
  assert (H2 : create_batches [10; 20; 30; 40; 50; 60; 70]%Z 3
               = Ok [[10; 20; 30]; [40; 50; 60]; [70]]%Z) by reflexivity.
  assert (H3 : In [70]%Z [[10; 20; 30]; [40; 50; 60]; [70]]%Z)
    by (right; right; left; reflexivity).
  split; [exact H1|]. split; [exact H2|]. split; [exact H3|].
  exact (create_batches_sizes _ 3 _ _ H1 H2 H3).
Defined.

(** X2. Partitioning composes: when the number of rows of a table is a
    multiple of the batch size, the batches of that table followed by
    further rows are the batches of the table followed by the batches of
    the further rows. *)
Theorem create_batches_app {A} (first rest : list A) (B : Z) (m : nat)
    (HB : (0 < B)%Z)
    (Hfull : Z.of_nat (length first) = (Z.of_nat m * B)%Z) :
  exists b1 b2,
    create_batches first B = Ok b1
    /\ create_batches rest B = Ok b2
    /\ create_batches (first ++ rest) B = Ok (b1 ++ b2).
Proof.
  rewrite !(create_batches_chunks _ B HB).
  eexists. eexists. split; [reflexivity|]. split; [reflexivity|]. f_equal.
  set (b := Z.to_nat B).
  assert (Hlen : length first = m * b) by (unfold b; nia).
  pose proof (ceil_div_nonneg (Z.of_nat (length rest)) B ltac:(lia) HB) as Hr.
  rewrite length_app, Nat2Z.inj_add, Hfull.
  rewrite ceil_div_exact by lia.
  replace (ceil_div (Z.of_nat m * B) B) with (Z.of_nat m).
  2:{ replace (Z.of_nat m * B)%Z with (Z.of_nat m * B + 0)%Z by lia.
      rewrite ceil_div_exact by lia.
      unfold ceil_div. rewrite Z.div_small by lia. lia. }
  rewrite Z2Nat.inj_add, Nat2Z.id by lia.
  rewrite seq_app, map_app. f_equal.
  - apply map_ext_in. intros k Hk. apply in_seq in Hk.
    apply chunk_app_l. nia.
  - rewrite (Nat.add_comm 0 m), map_seq_shift.
    apply map_ext. intros j. apply chunk_app_r, Hlen.
Qed.

Lemma create_batches_app_witness :
  (0 < 2)%Z
  /\ Z.of_nat (length [10; 20; 30; 40]%Z) = (Z.of_nat 2 * 2)%Z
  /\ exists b1 b2,
       create_batches [10; 20; 30; 40]%Z 2 = Ok b1
       /\ create_batches [50; 60; 70]%Z 2 = Ok b2
       /\ create_batches ([10; 20; 30; 40] ++ [50; 60; 70])%Z 2 = Ok (b1 ++ b2).
Proof.
  split; [lia|]. split; [reflexivity|].
  exact (create_batches_app [10; 20; 30; 40]%Z [50; 60; 70]%Z 2 2
           ltac:(lia) eq_refl).
Defined.

(** X3. A table that is not empty and has no more rows than the batch size
    is yielded whole, as the only batch. *)
Theorem create_batches_single {A} (data : list A) (B : Z)
    (Hrows : data <> [])
    (Hfits : (Z.of_nat (length data) <= B)%Z) :
  create_batches data B = Ok [data].
Proof.
  assert (Hpos : (0 < Z.of_nat (length data))%Z)
    by (destruct data; [congruence | simpl; lia]).
  assert (HB : (0 < B)%Z) by lia.
  rewrite create_batches_chunks by exact HB.
  pose proof (ceil_div_spec (Z.of_nat (length data)) B (Nat2Z.is_nonneg _) HB)
    as Hc.
  replace (ceil_div (Z.of_nat (length data)) B) with 1%Z by nia.
  change (seq 0 (Z.to_nat 1)) with [0]. cbn [map]. unfold chunk.
  rewrite Nat.mul_0_l, drop_0, take_ge by lia. reflexivity.
Qed.

Lemma create_batches_single_witness :
  [10; 20; 30]%Z <> []
  /\ (Z.of_nat (length [10; 20; 30]%Z) <= 8)%Z
  /\ create_batches [10; 20; 30]%Z 8 = Ok [[10; 20; 30]%Z].
Proof.
  split; [discriminate|]. split; [simpl; lia|].
  exact (create_batches_single [10; 20; 30]%Z 8 ltac:(discriminate)
           ltac:(simpl; lia)).
Defined.

(** X4. An empty table yields no batch, whatever the batch size, as long
    as it is not 0; with a batch size of 0 even the empty table raises. *)
Theorem create_batches_empty {A} (B : Z) :
  create_batches (@nil A) B = if (B =? 0)%Z then Raise ValueError else Ok [].
Proof.
  unfold create_batches, py_range, range_length. simpl.
  destruct (Z.eqb_spec B 0); [reflexivity|].
  destruct (0 <? B)%Z, (B <? 0)%Z; reflexivity.
Qed.

End PartitionerMore.

(** ** Further properties of the inference executor *)

Module ExecutorMore.
Import Path Executor ExecutorSpec Derived.

Section WithModel.
Variables float image : Type.
Variable imread : string -> option image.
Variable cvtColor : image -> image.
Variable model : image -> list (ModelRow float).
Variable image_folder : string.

Local Abbreviation rows_of := (row_rows imread cvtColor model image_folder).
Local Abbreviation run batch := (process_batch imread cvtColor model batch image_folder).

Lemma result_rows_run batch :
  result_rows (snd (run batch)) = flat_map rows_of batch.
Proof.
  rewrite process_batch_rows. simpl.
  destruct (flat_map rows_of batch); reflexivity.
Qed.

(** X5. A table that [process_batch] returns is never empty, and it
    returns [None] only when every row of the batch either cannot be
    decoded or gets no detection from the model. *)
Theorem process_batch_never_empty batch :
  (forall table, snd (run batch) = Some table -> table <> [])
  /\ (snd (run batch) = None ->
      Forall (fun row =>
                match imread (os_path_join image_folder (image_path_rel row)) with
                | None => True
                | Some img => model (cvtColor img) = []
                end) batch).
Proof.
  rewrite process_batch_rows. simpl. split.
  - intros table H. destruct (flat_map rows_of batch); [discriminate|].
    injection H as <-. discriminate.
  - intros H.
    assert (Hflat : flat_map rows_of batch = [])
      by (destruct (flat_map rows_of batch); [reflexivity | discriminate]).
    clear H. induction batch as [|row batch IH]; [constructor|].
    simpl in Hflat. apply app_eq_nil in Hflat as [Hrow Hrest].
    constructor; [|apply IH, Hrest].
    unfold row_rows in Hrow.
    destruct (imread _) as [img|]; [|exact I].
    destruct (model (cvtColor img)); [reflexivity | discriminate].
Qed.

(** X6. Every row of the table that [process_batch] returns is a detection
    the model gave for the decoded image of a row of the batch, relabelled
    with the class, type and path of that row: nothing else is ever put
    into the table. *)
Theorem process_batch_provenance batch table d
    (Hrun : snd (run batch) = Some table)
    (Hin : In d table) :
  exists row img m,
    In row batch
    /\ imread (os_path_join image_folder (image_path_rel row)) = Some img
    /\ In m (model (cvtColor img))
    /\ d = assign_labels (row_class row) (row_type row) (image_path_rel row) m.
Proof.
  assert (Hrows : In d (flat_map rows_of batch)).
  { rewrite <- result_rows_run, Hrun. exact Hin. }
  apply in_flat_map in Hrows as (row & Hrow & Hd).
  unfold row_rows in Hd.
  destruct (imread _) as [img|] eqn:E; [|destruct Hd].
  apply in_map_iff in Hd as (m & <- & Hm).
  exists row, img, m. repeat split; assumption.
Qed.

(** X7. What [process_batch] prints: one failure line for each row whose
    image cannot be loaded, in the order of the rows, and the completion
    line at the end, also for an empty batch. *)
Theorem process_batch_console batch :
  fst (run batch)
  = map (fun row =>
           "Failed to load image: "
             +:+ os_path_join image_folder (image_path_rel row))
        (List.filter
           (fun row =>
              match imread (os_path_join image_folder (image_path_rel row)) with
              | None => true
              | Some _ => false
              end) batch)
    ++ ["batch complete returning batch"].
Proof.
  rewrite process_batch_rows. simpl. f_equal.
  induction batch as [|row batch IH]; [reflexivity|]. simpl.
  rewrite IH. unfold row_lines.
  destruct (imread _); reflexivity.
Qed.

(** X8. Processing a batch in two parts gives the same detections, in the
    same order, as processing it at once. *)
Theorem process_batch_app batch1 batch2 :
  result_rows (snd (run (batch1 ++ batch2)))
  = result_rows (snd (run batch1)) ++ result_rows (snd (run batch2)).
Proof.
  rewrite !result_rows_run. apply flat_map_app.
Qed.

(** X9. Batching loses nothing: for a positive batch size, the rows of the
    results of [process_batch] on the batches of [create_batches], taken in
    order, are the rows of its result on the whole manifest. *)
Theorem batched_run_complete manifest (B : Z) batches
    (HB : (0 < B)%Z)
    (Hbatches : Partitioner.create_batches manifest B = Ok batches) :
  flat_map (fun batch => result_rows (snd (run batch))) batches
  = result_rows (snd (run manifest)).
Proof.
  rewrite (flat_map_ext _ (flat_map rows_of)) by (intros; apply result_rows_run).
  rewrite result_rows_run.
  rewrite (PartitionerMore.create_batches_chunks manifest B HB) in Hbatches.
  injection Hbatches as <-.
  assert (Hcat : forall l : list (list ManifestRow),
             flat_map (flat_map rows_of) l = flat_map rows_of (concat l)).
  { induction l as [|x l IH]; simpl; [reflexivity|].
    rewrite flat_map_app, IH. reflexivity. }
  rewrite Hcat, PartitionerSpec.concat_chunks; [reflexivity|].
  pose proof (PartitionerSpec.ceil_div_spec (Z.of_nat (length manifest)) B
                (Nat2Z.is_nonneg _) HB). nia.
Qed.

End WithModel.

Import Samples.

Lemma process_batch_never_empty_witness :
  (exists table,
     snd (process_batch sample_imread sample_cvtColor sample_model
            [missing_row; lion_row] "imgs") = Some table
     /\ table <> [])
  /\ snd (process_batch sample_imread sample_cvtColor sample_model
            [missing_row; empty_row] "imgs") = None
  /\ Forall (fun row =>
               match sample_imread (os_path_join "imgs" (image_path_rel row)) with
               | None => True
               | Some img => sample_model (sample_cvtColor img) = []
               end) [missing_row; empty_row].
Proof.
  split.
  - eexists. split; [reflexivity|].
    exact (proj1 (process_batch_never_empty Z string sample_imread sample_cvtColor
                    sample_model "imgs" [missing_row; lion_row]) _ eq_refl).
  - split; [reflexivity|].
    exact (proj2 (process_batch_never_empty Z string sample_imread sample_cvtColor
                    sample_model "imgs" [missing_row; empty_row]) eq_refl).
Defined.

Lemma process_batch_provenance_witness :
  exists table d,
    snd (process_batch sample_imread sample_cvtColor sample_model
           [missing_row; lion_row; empty_row] "imgs") = Some table
    /\ In d table
    /\ exists row img m,
         In row [missing_row; lion_row; empty_row]
         /\ sample_imread (os_path_join "imgs" (image_path_rel row)) = Some img
         /\ In m (sample_model (sample_cvtColor img))
         /\ d = assign_labels (row_class row) (row_type row) (image_path_rel row) m.
Proof.
  eexists. eexists.
  assert (H1 : snd (process_batch sample_imread sample_cvtColor sample_model
                      [missing_row; lion_row; empty_row] "imgs")
               = Some [assign_labels 7 "lion" "x.jpg"
                         {| m_xcenter := 500%Z; m_ycenter := 400%Z;
                            m_width := 250%Z; m_height := 300%Z;
                            m_confidence := 910%Z;
                            m_class := 2; m_name := "animal" |}])
    by reflexivity.
  split; [exact H1|]. split; [left; reflexivity|].
  exact (process_batch_provenance Z string sample_imread sample_cvtColor
           sample_model "imgs" _ _ _ H1 (or_introl eq_refl)).
Defined.

Lemma batched_run_complete_witness :
  (0 < 2)%Z
  /\ Partitioner.create_batches [missing_row; lion_row; empty_row] 2
     = Ok [[missing_row; lion_row]; [empty_row]]
  /\ flat_map (fun batch =>
                 result_rows (snd (process_batch sample_imread sample_cvtColor
                                     sample_model batch "imgs")))
              [[missing_row; lion_row]; [empty_row]]
     = result_rows (snd (process_batch sample_imread sample_cvtColor sample_model
                           [missing_row; lion_row; empty_row] "imgs")).
Proof.
  assert (H1 : (0 < 2)%Z) by lia.
  assert (H2 : Partitioner.create_batches [missing_row; lion_row; empty_row] 2
               = Ok [[missing_row; lion_row]; [empty_row]]) by reflexivity.
  split; [exact H1|]. split; [exact H2|].
  exact (batched_run_complete Z string sample_imread sample_cvtColor sample_model
           "imgs" _ 2 _ H1 H2).
Defined.

End ExecutorMore.

(** ** Further properties of the directory scanner *)

Module ScannerMore.
Import Path Scanner ScannerSpec Derived.

Lemma walked_path_snoc top comps name :
  walked_path top (comps ++ [name]) = os_path_join (walked_path top comps) name.
Proof. unfold walked_path. rewrite fold_left_app. reflexivity. Qed.

Lemma walked_path_last top comps :
  comps <> [] ->
  os_path_join (walked_path top (removelast comps)) (List.last comps "")
  = walked_path top comps.
Proof.
  intros H. rewrite <- walked_path_snoc.
  rewrite <- app_removelast_last by exact H. reflexivity.
Qed.

Lemma file_at_nonempty root up d comps : file_at root up d comps -> comps <> [].
Proof. intros H. destruct H; discriminate. Qed.

(** The walk yields the directory of every file it can reach. *)
Lemma walk_dir_reaches root up d comps :
  file_at root up d comps ->
  forall top,
    exists dirs files,
      In (walked_path top (removelast comps), dirs, files) (walk_dir root top up d)
      /\ In (List.last comps "") files.
Proof.
  induction 1 as [up name child entries Hin Hfile
                 |up name readable below entries rest Hin Hrest IH]; intros top.
  - rewrite walk_dir_readable.
    exists (dirs_of root (Dir true entries, up) entries),
           (nondirs_of root (Dir true entries, up) entries).
    split; [left; reflexivity|].
    unfold nondirs_of. apply in_map_iff. exists (name, child).
    split; [reflexivity|]. apply filter_In. split; [exact Hin|].
    simpl. rewrite Hfile. reflexivity.
  - destruct (IH (os_path_join top name)) as (dirs & files & Hwalk & Hlast).
    pose proof (file_at_nonempty _ _ _ _ Hrest) as Hne.
    exists dirs, files. split.
    + rewrite walk_dir_readable. right. unfold walk_children.
      apply in_flat_map. exists (name, Dir readable below).
      split; [exact Hin|]. simpl.
      destruct rest as [|r rest]; [congruence|]. exact Hwalk.
    + destruct rest as [|r rest]; [congruence|]. exact Hlast.
Qed.

(** X10. The scanners find every file below the root: an entry that is
    not a directory and that is reached from the root through real
    directories that may be listed is returned by [list_files_recursively]
    as the absolute form of its path below the root, and by
    [find_files_recursively] as the [PurePath] of that path. The root is
    the directory that the system finds for the path as given. *)
Theorem scanners_complete e path d up comps
    (Hroot : resolve e path = Some (d, up))
    (Hfile : file_at (root_dir e) up d comps) :
  (exists files,
     returned (list_files_recursively e path) = Ok files
     /\ In (os_path_abspath (cwd e) (walked_path path comps)) files)
  /\ (exists files,
        returned (find_files_recursively e path) = Ok files
        /\ In (pure_path (walked_path path (removelast comps)) (List.last comps ""))
              files).
Proof.
  destruct (walk_dir_reaches _ _ d comps Hfile path) as (dirs & files & Hwalk & Hlast).
  assert (Hos : In (walked_path path (removelast comps), dirs, files)
                   (os_walk e path)).
  { unfold os_walk. rewrite Hroot. exact Hwalk. }
  split.
  - rewrite list_files_recursively_eq. eexists. split; [reflexivity|].
    unfold absolute_files. apply in_flat_map. eexists. split; [exact Hos|].
    simpl. apply in_map_iff. exists (List.last comps "").
    split; [|exact Hlast].
    rewrite walked_path_last by (eapply file_at_nonempty; exact Hfile).
    reflexivity.
  - rewrite find_files_recursively_eq. eexists. split; [reflexivity|].
    unfold pure_files. apply in_flat_map. eexists. split; [exact Hos|].
    simpl. apply in_map. exact Hlast.
Qed.

Lemma nondirs_of_app root here es1 es2 :
  nondirs_of root here (es1 ++ es2)
  = nondirs_of root here es1 ++ nondirs_of root here es2.
Proof. unfold nondirs_of. rewrite List.filter_app, map_app. reflexivity. Qed.

(** X11. Symbolic links to directories are not followed and not listed: a
    link that leads to a directory, among the entries of the root that the
    system finds for the path as given, contributes neither itself nor
    anything below it to what the scanners return. *)
Theorem scanners_skip_linked_directories e path up before name text after :
  let entries := before ++ (name, Symlink text) :: after in
  let here := (Dir true entries, up) in
  let triples :=
    (path, dirs_of (root_dir e) here entries,
     nondirs_of (root_dir e) here before ++ nondirs_of (root_dir e) here after)
    :: walk_children (root_dir e) path (Dir true entries :: up) before
       ++ walk_children (root_dir e) path (Dir true entries :: up) after in
  resolve e path = Some here ->
  is_dir (root_dir e) here (Symlink text) = true ->
  returned (list_files_recursively e path)
  = Ok (absolute_files (cwd e) triples)
  /\ returned (find_files_recursively e path) = Ok (pure_files triples).
Proof.
  intros entries here triples Hroot Hlink.
  rewrite list_files_recursively_eq, find_files_recursively_eq.
  assert (Hwalk : os_walk e path = triples).
  { rewrite (os_walk_listable _ _ _ _ Hroot).
    unfold triples. f_equal.
    - f_equal. unfold entries. rewrite nondirs_of_app. f_equal.
      unfold nondirs_of. cbn [List.filter snd].
      fold entries. fold here. rewrite Hlink. reflexivity.
    - unfold walk_children, entries. rewrite flat_map_app. reflexivity. }
  rewrite Hwalk. split; reflexivity.
Qed.

(** X12. The two scanners return the same entries in the same order:
    [list_files_recursively] gives the absolute path and
    [find_files_recursively] the [PurePath] of the same directory and
    name. *)
Theorem scanners_agree e path :
  exists entries : list (string * string),
    returned (list_files_recursively e path)
    = Ok (map (fun p => os_path_abspath (cwd e) (os_path_join (fst p) (snd p)))
              entries)
    /\ returned (find_files_recursively e path)
       = Ok (map (fun p => pure_path (fst p) (snd p)) entries).
Proof.
  exists (flat_map (fun t => map (fun file => (fst (fst t), file)) (snd t))
                   (os_walk e path)).
  rewrite list_files_recursively_eq, find_files_recursively_eq. simpl.
  unfold absolute_files, pure_files.
  induction (os_walk e path) as [|t l [IH1 IH2]]; [split; reflexivity|].
  simpl. rewrite !map_app, !map_map.
  injection IH1 as IH1. injection IH2 as IH2. rewrite <- IH1, <- IH2.
  split; reflexivity.
Qed.

Lemma scanners_complete_witness :
  let d := Dir true
             [("a.jpg", File);
              ("locked", Dir false [("hidden.jpg", File)]);
              ("sub", Dir true [("b.jpg", File)])] in
  resolve Samples.sample_env "/data/sub/.." = Some (d, [Samples.sample_tree])
  /\ file_at Samples.sample_tree [Samples.sample_tree] d ["sub"; "b.jpg"]
  /\ (exists files,
        returned (list_files_recursively Samples.sample_env "/data/sub/..")
        = Ok files
        /\ In "/data/sub/b.jpg" files)
  /\ (exists files,
        returned (find_files_recursively Samples.sample_env "/data/sub/..")
        = Ok files
        /\ In (pure_path "/data/sub/../sub" "b.jpg") files).
Proof.
  intros d.
  assert (H3 : file_at Samples.sample_tree [Samples.sample_tree] d ["sub"; "b.jpg"]).
  { eapply file_below.
    - right. right. left. reflexivity.
    - eapply file_here; [left; reflexivity | reflexivity]. }
  split; [reflexivity|]. split; [exact H3|].
  exact (scanners_complete Samples.sample_env "/data/sub/.." d
           [Samples.sample_tree] _ eq_refl H3).
Defined.

Lemma scanners_skip_linked_directories_witness :
  let entries := [("a.jpg", File)]
                 ++ ("shortcut", Symlink "../vault")
                 :: [("sub", Dir true [("b.jpg", File)])] in
  resolve linked_env "/data" = Some (Dir true entries, [linked_tree])
  /\ is_dir linked_tree (Dir true entries, [linked_tree]) (Symlink "../vault") = true
  /\ returned (list_files_recursively linked_env "/data")
     = Ok ["/data/a.jpg"; "/data/sub/b.jpg"].
Proof.
  intros entries.
  split; [reflexivity|]. split; [reflexivity|].
  exact (proj1 (scanners_skip_linked_directories linked_env "/data" [linked_tree]
                  [("a.jpg", File)] "shortcut" "../vault"
                  [("sub", Dir true [("b.jpg", File)])]
                  eq_refl eq_refl)).
Defined.

End ScannerMore.

(** ** Further properties of the symlink synchroniser *)

Module SynchronizerMore.
Import Path Synchronizer PathSpec PathMore SynchronizerSpec Derived.

(** *** Creating the destination *)

Section Invariant.
Variable R : world -> world -> Prop.
Hypothesis R_refl : forall w, R w w.
Hypothesis R_trans : forall w1 w2 w3, R w1 w2 -> R w2 w3 -> R w1 w3.
Hypothesis R_mkdir : forall path w, R w (snd (os_mkdir path w)).

Lemma makedirs_step_rel recurse :
  (forall name w, R w (snd (recurse name w))) ->
  forall name w, R w (snd (makedirs_step recurse name w)).
Proof.
  intros Hrec name w.
  change (sat (makedirs_step recurse name) w (fun _ w' => R w w')).
  unfold makedirs_step.
  apply sat_bind, sat_exists, sat_bind.
  match goal with |- context [if ?c then _ else _] => destruct c end.
  - apply sat_bind. unfold sat at 1, try_pass.
    match goal with |- context [recurse ?h w] =>
      pose proof (Hrec h w) as Hr; destruct (recurse h w) as [r1 w1] end.
    simpl in Hr.
    assert (Hnext : forall b : bool,
               sat (if b then ret tt else os_mkdir name) w1
                   (fun _ w' => R w w')).
    { intros [|]; [exact Hr|]. unfold sat. eapply R_trans; [exact Hr|].
      apply R_mkdir. }
    destruct r1 as [[]|[|]]; simpl; try exact Hr; apply sat_ret, Hnext.
  - apply sat_ret. unfold sat. apply R_mkdir.
Qed.

Lemma makedirs_fuel_rel fuel : forall name w,
  R w (snd (makedirs_fuel fuel name w)).
Proof.
  induction fuel as [|fuel IH]; intros name w; simpl;
    apply makedirs_step_rel; [intros; apply R_refl | exact IH].
Qed.

Lemma ensure_folder_rel folder_path w :
  R w (snd (ensure_folder folder_path w)).
Proof.
  change (sat (ensure_folder folder_path) w (fun _ w' => R w w')).
  unfold ensure_folder.
  apply sat_bind, sat_getcwd, sat_bind, sat_exists, sat_bind.
  destruct (negb _).
  - pose proof (makedirs_fuel_rel
                  (String.length (os_path_abspath (cwd w) folder_path))
                  (os_path_abspath (cwd w) folder_path) w) as H.
    unfold sat at 1, os_makedirs.
    destruct (makedirs_fuel _ _ w) as [[[]|e] w']; simpl in *;
      [apply sat_ret|]; exact H.
  - apply sat_ret, sat_ret, R_refl.
Qed.
End Invariant.

Lemma only_mkdirs_refl w : only_mkdirs w w.
Proof. exists []. rewrite app_nil_r. split; [reflexivity | constructor]. Qed.

Lemma only_mkdirs_trans w1 w2 w3 :
  only_mkdirs w1 w2 -> only_mkdirs w2 w3 -> only_mkdirs w1 w3.
Proof.
  intros (c1 & H1 & F1) (c2 & H2 & F2). exists (c1 ++ c2).
  rewrite H2, H1, <- app_assoc. split; [reflexivity|].
  apply Forall_app. split; assumption.
Qed.

Lemma only_mkdirs_mkdir path w : only_mkdirs w (snd (os_mkdir path w)).
Proof.
  unfold os_mkdir. destruct (entry w (rstrip_sep path)) as [k|];
    [|apply only_mkdirs_refl].
  destruct (fs w !! k); simpl; [apply only_mkdirs_refl|].
  exists [SysMkdir path]. split; [reflexivity|].
  constructor; [exact I | constructor].
Qed.

Lemma ensure_folder_mkdirs folder_path w :
  only_mkdirs w (snd (ensure_folder folder_path w)).
Proof.
  apply ensure_folder_rel;
    [apply only_mkdirs_refl | apply only_mkdirs_trans | apply only_mkdirs_mkdir].
Qed.

Lemma ensure_folder_present folder_path w :
  path_exists w (os_path_abspath (cwd w) folder_path) = true ->
  ensure_folder folder_path w = (Ok (os_path_abspath (cwd w) folder_path), w).
Proof.
  intros H. unfold ensure_folder, bind, os_getcwd, os_path_exists. simpl.
  rewrite H. reflexivity.
Qed.

Lemma basename_of_dir p : ends_with_sep p = true -> os_path_basename p = "".
Proof.
  intros H. destruct (ends_with_sep_inv p H) as [a ->].
  unfold os_path_basename.
  change (a +:+ "/") with (a +:+ String "/" "").
  rewrite split_sep_app_sep. apply last_last.
Qed.

Lemma rstrip_sep_id p : ends_with_sep p = false -> rstrip_sep p = p.
Proof.
  induction p as [|c p IH]; [reflexivity|]. simpl.
  destruct p as [|c' p'].
  - intros ->. reflexivity.
  - intros H. rewrite (IH H). reflexivity.
Qed.

Lemma final_name_basename p : has_final_name p = true -> os_path_basename p <> "".
Proof. unfold has_final_name. intros H E. rewrite E in H. discriminate H. Qed.

Lemma final_name_rstrip p : has_final_name p = true -> rstrip_sep p = p.
Proof.
  intros H. apply rstrip_sep_id.
  destruct (ends_with_sep p) eqn:E; [|reflexivity].
  exfalso. exact (final_name_basename _ H (basename_of_dir _ E)).
Qed.

(** A destination that names a free entry of a directory, and whose parent
    exists, is created by one [mkdir]. *)
Lemma ensure_folder_creates folder_path w k :
  let folder := os_path_abspath (cwd w) folder_path in
  path_exists w (os_path_dirname folder) = true ->
  entry w folder = Some k ->
  fs w !! k = None ->
  ensure_folder folder_path w
  = (Ok folder, set_fs w (<[k := Dir]> (fs w)) (SysMkdir folder)).
Proof.
  intros folder Hhead Hk Hnone.
  destruct (entry_of_inv _ _ _ _ Hk) as (Hfinal & _).
  assert (Hmissing : path_exists w folder = false).
  { unfold path_exists. rewrite (stat_of_entry _ _ _ _ Hk), Hnone.
    - apply bool_decide_eq_false_2. intros [x Hx]. discriminate.
    - intros t. rewrite Hnone. discriminate. }
  pose proof (proj2 (String.eqb_neq _ _) (final_name_basename _ Hfinal)) as Hname.
  assert (Hmk : forall recurse,
             makedirs_step recurse folder w
             = (Ok tt, set_fs w (<[k := Dir]> (fs w)) (SysMkdir folder))).
  { intros recurse. apply sat_eq. unfold makedirs_step. rewrite Hname.
    apply sat_bind, sat_exists. rewrite Hhead.
    rewrite !andb_false_r. apply sat_bind, sat_ret.
    unfold sat, os_mkdir. rewrite (final_name_rstrip _ Hfinal), Hk, Hnone.
    simpl. split; reflexivity. }
  apply sat_eq. unfold ensure_folder.
  apply sat_bind, sat_getcwd, sat_bind, sat_exists. fold folder.
  rewrite Hmissing. simpl negb. cbv iota. apply sat_bind.
  unfold sat at 1, os_makedirs.
  destruct (String.length folder); simpl makedirs_fuel; rewrite Hmk; simpl;
    apply sat_ret; split; reflexivity.
Qed.

(** *** One file of the list *)

Lemma sync_one_on_dir folder_path file_name n w :
  path_exists w (os_path_abspath (cwd w) file_name) = true ->
  lstat (fs w) (cwd_parts w) (destination_of (cwd w) folder_path file_name)
  = Some Dir ->
  sync_one folder_path file_name n w = (Raise OSError, w).
Proof.
  intros Hsrc Hdir. apply sync_one_is, turn_blocked; [exact Hsrc|].
  unfold lstat in Hdir. unfold entry.
  destruct (has_final_name _) eqn:Hn.
  - destruct (entry_of _ _ _) as [k|]; [|discriminate].
    right. exists k. split; [reflexivity | exact Hdir].
  - left. apply entry_of_no_name, Hn.
Qed.

Lemma sync_one_fresh folder_path file_name n w k :
  let target := os_path_abspath (cwd w) file_name in
  let dest := destination_of (cwd w) folder_path file_name in
  path_exists w target = true ->
  entry w dest = Some k ->
  fs w !! k = None ->
  sync_one folder_path file_name n w
  = (Ok (n + 1)%Z,
     set_fs w (<[k := Link target]> (fs w)) (SysSymlink target dest)).
Proof. intros target dest Hsrc Hk Hnone. apply sync_one_is, turn_created; assumption. Qed.

(** A turn that succeeded can be taken again when the source still
    exists: the same link is put back and counted once more. *)
Lemma turn_again folder_path file_name n w n' w' :
  let target := os_path_abspath (cwd w) file_name in
  let dest := destination_of (cwd w) folder_path file_name in
  turn folder_path file_name n w (Ok n') w' ->
  path_exists w' target = true ->
  sync_one folder_path file_name n' w'
  = (Ok (n' + 1)%Z,
     {| fs := fs w'; cwd_parts := cwd_parts w'; stdout := stdout w';
        journal := journal w' ++ [SysRemove dest; SysSymlink target dest] |}).
Proof.
  intros target dest Hturn Hex.
  remember (Ok n') as r eqn:Hr.
  destruct Hturn as [E|d E B|k d E K O F|k t d E K N|k t d E K O F];
    try discriminate.
  - fold target in E. congruence.
  - injection Hr as <-. subst t d.
    erewrite sync_one_is.
    2:{ apply (turn_replaced _ _ _ _ k); [exact Hex | | |].
        - apply (entry_of_mono (fs w)); [apply insert_subseteq, N | exact K].
        - right. eexists. apply lookup_insert_eq.
        - simpl. rewrite delete_insert_id by exact N. exact K. }
    f_equal. unfold set_fs. simpl.
    rewrite insert_delete_eq, insert_insert_eq, <- app_assoc. reflexivity.
  - injection Hr as <-. subst t d.
    erewrite sync_one_is.
    2:{ apply (turn_replaced _ _ _ _ k); [exact Hex | | |].
        - apply (entry_of_mono (delete k (fs w)));
            [apply insert_subseteq, lookup_delete_eq | exact F].
        - right. eexists. apply lookup_insert_eq.
        - simpl. rewrite delete_insert_eq, delete_delete_eq. exact F. }
    f_equal. unfold set_fs. simpl.
    rewrite insert_delete_eq, insert_insert_eq, <- !app_assoc. reflexivity.
Qed.

(** *** Paths that go through no link *)

(** A resolution that follows no link and ends in a directory goes through
    directories only; it gives the same result in every store that still
    has those directories, whatever the number of links allowed. *)
Lemma namei_plain (sigma sigma' : gmap (list string) node) :
  (forall j, sigma !! j = Some Dir -> sigma' !! j = Some Dir) ->
  forall comps cur d f,
    namei 0 sigma cur comps = Some (d, f) ->
    node_at sigma d = Some Dir ->
    forall fuel, namei fuel sigma' cur comps = Some (d, fuel).
Proof.
  intros Hdirs.
  assert (Hat : forall k, node_at sigma k = Some Dir -> node_at sigma' k = Some Dir).
  { intros [|c k]; simpl; [tauto | apply Hdirs]. }
  induction comps as [|c comps IH]; intros cur d f Hrun Hd fuel.
  - rewrite namei_nil in *. injection Hrun as <- <-. reflexivity.
  - rewrite namei_cons in *.
    destruct (node_at sigma cur) as [[| |]|] eqn:Ecur; try discriminate.
    rewrite (Hat _ Ecur).
    destruct (_ || _); [eapply IH; eassumption|].
    destruct (String.eqb c ".."); [eapply IH; eassumption|].
    destruct (sigma !! (cur ++ [c])) as [[| |text]|] eqn:El; try discriminate.
    + exfalso.
      assert (E : node_at sigma (cur ++ [c]) = Some File)
        by (destruct cur; exact El).
      destruct comps as [|c' comps].
      * rewrite namei_nil in Hrun. injection Hrun as <- <-. congruence.
      * rewrite namei_cons, E in Hrun. discriminate.
    + rewrite (Hdirs _ El). eapply IH; eassumption.
Qed.

Lemma entry_plain (sigma sigma' : gmap (list string) node) from p k :
  (forall j, sigma !! j = Some Dir -> sigma' !! j = Some Dir) ->
  entry_with 0 sigma from p = Some k ->
  has_final_name p = true
  /\ exists dir,
       (forall fuel,
          namei fuel sigma' (start_of from p) (removelast (split_sep p))
          = Some (dir, fuel))
       /\ node_at sigma' dir = Some Dir
       /\ k = dir ++ [os_path_basename p].
Proof.
  intros Hdirs. unfold entry_with.
  destruct (has_final_name p); [|discriminate].
  destruct (namei 0 _ _ _) as [[dir f]|] eqn:Hr; [|discriminate].
  destruct (node_at sigma dir) as [[| |]|] eqn:Ed; try discriminate.
  intros H. injection H as <-. split; [reflexivity|].
  exists dir. split; [|split; [|reflexivity]].
  - intros fuel. eapply namei_plain; eassumption.
  - destruct dir as [|c dir]; [reflexivity | apply Hdirs, Ed].
Qed.

Lemma entry_plain_of sigma from p k :
  entry_with 0 sigma from p = Some k -> entry_of sigma from p = Some k.
Proof.
  intros H.
  destruct (entry_plain sigma sigma from p k (fun _ E => E) H)
    as (Hn & dir & Hr & Hd & ->).
  eapply entry_of_intro; [exact Hn | apply Hr | exact Hd].
Qed.

(** A link whose text is its own absolute path leads nowhere. *)
Lemma stat_self_link sigma from p dir :
  starts_with_sep p = true ->
  has_final_name p = true ->
  (forall fuel,
     namei fuel sigma [] (removelast (split_sep p)) = Some (dir, fuel)) ->
  node_at sigma dir = Some Dir ->
  sigma !! (dir ++ [os_path_basename p]) = Some (Link p) ->
  stat sigma from p = None.
Proof.
  intros Habs Hn Hr Hd Hl.
  pose proof (has_final_name_nonempty _ Hn) as Hne.
  apply String.eqb_neq in Hne.
  unfold has_final_name in Hn. apply negb_true_iff in Hn.
  apply orb_false_iff in Hn as [Hn Hn3].
  assert (Hloop : forall fuel, namei fuel sigma [] (split_sep p) = None).
  { induction fuel as [|fuel IH];
      rewrite (split_sep_last p), namei_app, Hr, namei_cons, Hd, Hn, Hn3, Hl;
      [reflexivity|].
    rewrite Hne, Habs, app_nil_r. exact IH. }
  unfold stat, start_of. rewrite Hne, Habs, Hloop. reflexivity.
Qed.

(** X13. When the destination holds a directory under the base name of a
    file whose source exists, the call raises [OSError] at that file: the
    directory and everything done for the files before it stay, the files
    after it are not processed, and no total is printed. *)
Theorem populate_directory_collision pre file_name post folder_path w v w1 :
  let target := os_path_abspath (cwd w) file_name in
  let folder := os_path_abspath (cwd w) folder_path in
  let dest := destination_of (cwd w) folder file_name in
  let run := populate_with_symlinks (pre ++ file_name :: post) folder_path w in
  populate_with_symlinks pre folder_path w = (Ok v, w1) ->
  path_exists w1 target = true ->
  lstat (fs w1) (cwd_parts w1) dest = Some Dir ->
  fst run = Raise OSError
  /\ fs (snd run) = fs w1
  /\ journal (snd run) = journal w1
  /\ stdout (snd run) = stdout w.
Proof.
  intros target folder dest run Hpre Hsrc Hdir.
  destruct (populate_ok_parts _ _ _ _ _ Hpre)
    as (wa & n & wb & He & _ & Hl & Hc & _ & Ho & _ & ->).
  pose proof (sync_one_on_dir folder file_name n wb) as Hone.
  rewrite (same_cwd _ _ Hc) in Hone. specialize (Hone Hsrc Hdir).
  unfold run. rewrite (populate_turn _ _ _ _ _ _ _ _ He Hl).
  fold folder. rewrite Hone. simpl.
  repeat split; try reflexivity. exact Ho.
Qed.

Lemma populate_directory_collision_witness :
  let w1 := snd (populate_with_symlinks ["/new/a.jpg"] "/d" collision_world) in
  let run := populate_with_symlinks (["/new/a.jpg"] ++ "/new/album" :: ["/new/a.jpg"])
               "/d" collision_world in
  populate_with_symlinks ["/new/a.jpg"] "/d" collision_world = (Ok PyNone, w1)
  /\ path_exists w1 "/new/album" = true
  /\ lstat (fs w1) (cwd_parts w1) "/d/album" = Some Dir
  /\ fst run = Raise OSError
  /\ fs (snd run) = fs w1
  /\ journal (snd run) = journal w1
  /\ stdout (snd run) = [].
Proof.
  intros w1 run.
  assert (H1 : populate_with_symlinks ["/new/a.jpg"] "/d" collision_world
               = (Ok PyNone, w1)) by (vm_compute; reflexivity).
  assert (H2 : path_exists w1 "/new/album" = true) by (vm_compute; reflexivity).
  assert (H3 : lstat (fs w1) (cwd_parts w1) "/d/album" = Some Dir)
    by (vm_compute; reflexivity).
  repeat (split; [assumption|]).
  exact (populate_directory_collision ["/new/a.jpg"] "/new/album" ["/new/a.jpg"]
           "/d" collision_world PyNone w1 H1 H2 H3).
Defined.

(** X14. When the turn of a file whose source exists comes and the
    destination path names an entry, of a directory, that is not there,
    the link is created and nothing is removed; when no later file of the
    list has the same base name, the entry is that link once the call
    ends. *)
Theorem populate_creates_entry pre file_name post folder_path w v w1 k :
  let target := os_path_abspath (cwd w) file_name in
  let folder := os_path_abspath (cwd w) folder_path in
  let dest := destination_of (cwd w) folder file_name in
  let run := populate_with_symlinks (pre ++ file_name :: post) folder_path w in
  populate_with_symlinks pre folder_path w = (Ok v, w1) ->
  path_exists w1 target = true ->
  entry w1 dest = Some k ->
  fs w1 !! k = None ->
  (exists later,
      journal (snd run) = journal w1 ++ [SysSymlink target dest] ++ later)
  /\ ((forall g, g ∈ post ->
         os_path_basename (os_path_abspath (cwd w) g) <> os_path_basename target) ->
      fs (snd run) !! k = Some (Link target)).
Proof.
  intros target folder dest run Hpre Hsrc Hk Hnone.
  destruct (populate_ok_parts _ _ _ _ _ Hpre)
    as (wa & n & wb & He & _ & Hl & Hc & _ & _ & _ & ->).
  pose proof (same_cwd _ _ Hc) as Hcwd.
  pose proof (sync_one_fresh folder file_name n wb k) as Hone.
  simpl in Hone. rewrite Hcwd in Hone. specialize (Hone Hsrc Hk Hnone).
  unfold run. rewrite (populate_turn _ _ _ _ _ _ _ _ He Hl).
  fold folder. rewrite Hone.
  match goal with |- context [finish ?f ?p ?m ?w2] =>
    destruct (finish_facts f p m w2) as ((later & Hj) & Hframe & _) end.
  split.
  - exists later. rewrite Hj. simpl. rewrite <- app_assoc. reflexivity.
  - intros Hpost. rewrite Hframe; [simpl; apply lookup_insert_eq|].
    intros g Hg. destruct (destination_last _ _ _ _ _ Hk) as [dir ->].
    rewrite last_last. change (cwd (set_fs _ _ _)) with (cwd wb).
    rewrite Hcwd. apply Hpost, Hg.
Qed.

Lemma populate_creates_entry_witness :
  let w1 := snd (populate_with_symlinks [] "/dl" Samples.linked_world) in
  let run := populate_with_symlinks ([] ++ "b.jpg" :: ["a.jpg"]) "/dl"
               Samples.linked_world in
  populate_with_symlinks [] "/dl" Samples.linked_world = (Ok PyNone, w1)
  /\ path_exists w1 "/new/b.jpg" = true
  /\ entry w1 "/dl/b.jpg" = Some ["d"; "b.jpg"]
  /\ fs w1 !! ["d"; "b.jpg"] = None
  /\ (exists later,
        journal (snd run)
        = journal w1 ++ [SysSymlink "/new/b.jpg" "/dl/b.jpg"] ++ later)
  /\ fs (snd run) !! ["d"; "b.jpg"] = Some (Link "/new/b.jpg").
Proof.
  intros w1 run.
  assert (H1 : populate_with_symlinks [] "/dl" Samples.linked_world
               = (Ok PyNone, w1)) by (vm_compute; reflexivity).
  assert (H2 : path_exists w1 "/new/b.jpg" = true) by (vm_compute; reflexivity).
  assert (H3 : entry w1 "/dl/b.jpg" = Some ["d"; "b.jpg"])
    by (vm_compute; reflexivity).
  assert (H4 : fs w1 !! ["d"; "b.jpg"] = None) by (vm_compute; reflexivity).
  assert (H6 : forall g, g ∈ ["a.jpg"] ->
                 os_path_basename (os_path_abspath "/new" g)
                 <> os_path_basename "/new/b.jpg").
  { intros g Hg. apply list_elem_of_singleton in Hg. subst g.
    vm_compute. discriminate. }
  pose proof (populate_creates_entry [] "b.jpg" ["a.jpg"] "/dl"
                Samples.linked_world PyNone w1 ["d"; "b.jpg"] H1 H2 H3 H4)
    as [Hj Hf].
  repeat (split; [assumption|]). exact (Hf H6).
Defined.

(** X15. A source file that lies in the destination folder under its own
    name is lost: at its turn the file is removed and replaced by a
    symbolic link to itself, so that, when no later file of the list has
    the same base name, its path no longer exists once the call ends. The
    path of the file is one that goes through no symbolic link. *)
Theorem populate_self_link pre file_name post folder_path w v w1 k :
  let target := os_path_abspath (cwd w) file_name in
  let folder := os_path_abspath (cwd w) folder_path in
  let run := populate_with_symlinks (pre ++ file_name :: post) folder_path w in
  populate_with_symlinks pre folder_path w = (Ok v, w1) ->
  entry_with 0 (fs w1) (cwd_parts w1) target = Some k ->
  fs w1 !! k = Some File ->
  destination_of (cwd w) folder file_name = target ->
  (forall g, g ∈ post ->
     os_path_basename (os_path_abspath (cwd w) g) <> os_path_basename target) ->
  fs (snd run) !! k = Some (Link target)
  /\ lstat (fs (snd run)) (cwd_parts (snd run)) target = Some (Link target)
  /\ path_exists (snd run) target = false.
Proof.
  intros target folder run Hpre Hplain Hfile Hdest Hpost.
  destruct (populate_ok_parts _ _ _ _ _ Hpre)
    as (wa & n & wb & He & _ & Hl & Hc & _ & _ & _ & ->).
  pose proof (same_cwd _ _ Hc) as Hcwd.
  change (fs (with_line wb (total_line n))) with (fs wb) in *.
  change (cwd_parts (with_line wb (total_line n))) with (cwd_parts wb) in *.
  pose proof (entry_plain_of _ _ _ _ Hplain) as Hk.
  assert (Hsrc : path_exists wb target = true).
  { unfold path_exists. rewrite (stat_of_entry _ _ _ _ Hk), Hfile.
    - apply bool_decide_eq_true_2. eexists; reflexivity.
    - intros t. rewrite Hfile. discriminate. }
  pose proof (sync_one_replace folder file_name n wb k) as Hone.
  simpl in Hone. rewrite Hcwd in Hone. fold target in Hone.
  rewrite Hdest in Hone.
  specialize (Hone Hsrc Hk (or_introl Hfile)).
  unfold run. rewrite (populate_turn _ _ _ _ _ _ _ _ He Hl).
  fold folder. rewrite Hone.
  set (w2 := set_fs _ _ _).
  destruct (finish_facts folder post (n + 1) w2) as (_ & Hframe & Hdirs).
  assert (Hfinal : fs (snd (finish folder post (n + 1) w2)) !! k
                   = Some (Link target)).
  { rewrite Hframe; [apply lookup_insert_eq|].
    intros g Hg. destruct (entry_of_name _ _ _ _ Hk) as [dir ->].
    rewrite last_last. change (cwd w2) with (cwd wb). rewrite Hcwd.
    apply Hpost, Hg. }
  assert (Hcp : cwd_parts (snd (finish folder post (n + 1) w2)) = cwd_parts wb).
  { unfold finish.
    pose proof (sync_loop_counted folder post (n + 1) w2) as Hcount.
    unfold sat in Hcount.
    destruct (for_each post (n + 1)%Z (sync_one folder) w2) as [[m|e] w3];
      simpl in *; destruct Hcount as [[Hc3 _] _]; exact Hc3. }
  assert (Hkeep : forall j, fs wb !! j = Some Dir ->
                    fs (snd (finish folder post (n + 1) w2)) !! j = Some Dir).
  { intros j Hj. apply Hdirs. unfold w2. simpl.
    assert (k <> j) by congruence.
    rewrite lookup_insert_ne, lookup_delete_ne by assumption. exact Hj. }
  destruct (entry_plain _ _ _ _ _ Hkeep Hplain) as (Hn & dir & Hr & Hd & Ek).
  assert (Habs : starts_with_sep target = true)
    by (apply abspath_absolute; reflexivity).
  assert (Hstart : start_of (cwd_parts wb) target = [])
    by (unfold start_of; rewrite Habs; reflexivity).
  rewrite Hstart in Hr. rewrite Ek in Hfinal.
  split; [rewrite Ek; exact Hfinal|]. split.
  - rewrite Hcp. unfold lstat, entry_of, entry_with.
    rewrite Hn, Hstart, Hr, Hd. exact Hfinal.
  - unfold path_exists. rewrite Hcp.
    rewrite (stat_self_link _ _ _ dir Habs Hn Hr Hd Hfinal).
    apply bool_decide_eq_false_2. intros [x Hx]. discriminate.
Qed.

Lemma populate_self_link_witness :
  let w1 := snd (populate_with_symlinks [] "/d" Samples.sample_world) in
  let run := populate_with_symlinks ([] ++ "/d/keep.txt" :: ["/new/a.jpg"]) "/d"
               Samples.sample_world in
  populate_with_symlinks [] "/d" Samples.sample_world = (Ok PyNone, w1)
  /\ entry_with 0 (fs w1) (cwd_parts w1) "/d/keep.txt" = Some ["d"; "keep.txt"]
  /\ fs w1 !! ["d"; "keep.txt"] = Some File
  /\ destination_of "/" "/d" "/d/keep.txt" = "/d/keep.txt"
  /\ fs (snd run) !! ["d"; "keep.txt"] = Some (Link "/d/keep.txt")
  /\ lstat (fs (snd run)) (cwd_parts (snd run)) "/d/keep.txt"
     = Some (Link "/d/keep.txt")
  /\ path_exists (snd run) "/d/keep.txt" = false.
Proof.
  intros w1 run.
  assert (H1 : populate_with_symlinks [] "/d" Samples.sample_world
               = (Ok PyNone, w1)) by (vm_compute; reflexivity).
  assert (H2 : entry_with 0 (fs w1) (cwd_parts w1) "/d/keep.txt"
               = Some ["d"; "keep.txt"]) by (vm_compute; reflexivity).
  assert (H3 : fs w1 !! ["d"; "keep.txt"] = Some File) by (vm_compute; reflexivity).
  assert (H4 : destination_of "/" "/d" "/d/keep.txt" = "/d/keep.txt")
    by (vm_compute; reflexivity).
  assert (H5 : forall g, g ∈ ["/new/a.jpg"] ->
                 os_path_basename (os_path_abspath "/" g)
                 <> os_path_basename "/d/keep.txt").
  { intros g Hg. apply list_elem_of_singleton in Hg. subst g.
    vm_compute. discriminate. }
  repeat (split; [assumption|]).
  exact (populate_self_link [] "/d/keep.txt" ["/new/a.jpg"] "/d"
           Samples.sample_world PyNone w1 ["d"; "keep.txt"] H1 H2 H3 H4 H5).
Defined.

(** X16. The system calls of a call: first the directories that
    [os.makedirs] creates, none when the destination exists, then nothing
    but removals of destination entries of files of the list and creations
    of links from such entries to the absolute paths of their files. *)
Theorem populate_journal file_list folder_path w :
  let folder := os_path_abspath (cwd w) folder_path in
  let run := populate_with_symlinks file_list folder_path w in
  exists dirs calls,
    journal (snd run) = journal w ++ dirs ++ calls
    /\ Forall is_mkdir dirs
    /\ (path_exists w folder = true -> dirs = [])
    /\ Forall (is_sync_call (cwd w) folder file_list) calls.
Proof.
  intros folder run. unfold run. rewrite populate_unfold.
  pose proof (ensure_folder_mkdirs folder_path w) as (dirs & Hj0 & Hd0).
  pose proof (ensure_folder_only folder_path w) as He. unfold sat in He.
  assert (Hpresent : path_exists w folder = true -> dirs = []).
  { intros H. rewrite (ensure_folder_present _ _ H) in Hj0. simpl in Hj0.
    rewrite <- (app_nil_r (journal w)) in Hj0 at 1.
    apply app_inv_head in Hj0. symmetry. exact Hj0. }
  destruct (ensure_folder folder_path w) as [[fd|e] wa]; simpl in *.
  - destruct He as [[[Hc _] _ _] [Hf|Hf]]; [|discriminate].
    injection Hf as ->. fold folder.
    pose proof (sync_loop_kept folder file_list 0%Z wa) as Hk. unfold sat in Hk.
    destruct (for_each file_list 0%Z (sync_one folder) wa) as [r wb].
    simpl in Hk. destruct Hk as [_ _ (calls & Hj1 & Hcalls & _)].
    exists dirs, calls. rewrite (same_cwd _ _ Hc) in Hcalls.
    split; [|split; [exact Hd0 | split; [exact Hpresent | exact Hcalls]]].
    destruct r; simpl; rewrite Hj1, Hj0, <- app_assoc; reflexivity.
  - exists dirs, []. rewrite app_nil_r.
    split; [exact Hj0|]. split; [exact Hd0|]. split; [exact Hpresent|].
    constructor.
Qed.

Lemma populate_journal_witness :
  let run := populate_with_symlinks ["/new/a.jpg"] "/d" Samples.sample_world in
  path_exists Samples.sample_world (os_path_abspath "/" "/d") = true
  /\ exists calls,
       journal (snd run) = calls
       /\ Forall (is_sync_call "/" "/d" ["/new/a.jpg"]) calls.
Proof.
  intros run.
  assert (H1 : path_exists Samples.sample_world (os_path_abspath "/" "/d") = true)
    by (vm_compute; reflexivity).
  split; [exact H1|].
  destruct (populate_journal ["/new/a.jpg"] "/d" Samples.sample_world)
    as (dirs & calls & Hj & _ & Hnone & Hcalls).
  exists calls. split; [|exact Hcalls].
  rewrite (Hnone H1) in Hj. exact Hj.
Defined.

(** X17. The total that a completed call prints is at least 0 and at most
    the number of files of the list. *)
Theorem populate_count_bounded file_list folder_path w v w1
    (Hrun : populate_with_symlinks file_list folder_path w = (Ok v, w1)) :
  exists n,
    stdout w1 = stdout w ++ ["Total symbolic links created: " +:+ pretty n]
    /\ (0 <= n <= Z.of_nat (length file_list))%Z.
Proof.
  destruct (populate_ok_parts _ _ _ _ _ Hrun)
    as (wa & n & wb & He & _ & Hl & Hc & _ & Ho & _ & ->).
  exists n. split; [simpl; rewrite Ho; reflexivity|].
  pose proof (sat_run _ _ _ _ _ Hl (sync_loop_counted _ _ _ _))
    as (_ & c1 & Hj1 & Hn).
  pose proof (sat_run _ _ _ _ _ Hl (sync_loop_kept _ _ _ _))
    as [_ _ (c2 & Hj2 & _ & Hlen)].
  rewrite Hj1 in Hj2. apply app_inv_head in Hj2. subst c2. lia.
Qed.

Lemma populate_count_bounded_witness :
  let w1 := snd (populate_with_symlinks ["/new/a.jpg"; "/nope/c.jpg"] "/d"
                   Samples.sample_world) in
  populate_with_symlinks ["/new/a.jpg"; "/nope/c.jpg"] "/d" Samples.sample_world
  = (Ok PyNone, w1)
  /\ exists n,
       stdout w1
       = stdout Samples.sample_world
         ++ ["Total symbolic links created: " +:+ pretty n]
       /\ (0 <= n <= 2)%Z.
Proof.
  intros w1.
  assert (H1 : populate_with_symlinks ["/new/a.jpg"; "/nope/c.jpg"] "/d"
                 Samples.sample_world = (Ok PyNone, w1))
    by (vm_compute; reflexivity).
  split; [exact H1|].
  exact (populate_count_bounded _ _ _ _ _ H1).
Defined.

(** X18. A destination path that names a free entry of a directory, and
    whose parent exists, does not exist; it is created first, by one
    [mkdir], and is a directory when the call ends, however the call
    ends. *)
Theorem populate_creates_folder file_list folder_path w k :
  let folder := os_path_abspath (cwd w) folder_path in
  let run := populate_with_symlinks file_list folder_path w in
  path_exists w (os_path_dirname folder) = true ->
  entry w folder = Some k ->
  fs w !! k = None ->
  path_exists w folder = false
  /\ (exists later, journal (snd run) = journal w ++ [SysMkdir folder] ++ later)
  /\ fs (snd run) !! k = Some Dir.
Proof.
  intros folder run Hparent Hk Hnone.
  split.
  { unfold path_exists. rewrite (stat_of_entry _ _ _ _ Hk), Hnone.
    - apply bool_decide_eq_false_2. intros [x Hx]. discriminate.
    - intros t. rewrite Hnone. discriminate. }
  unfold run. rewrite populate_unfold.
  rewrite (ensure_folder_creates folder_path w k Hparent Hk Hnone).
  fold folder.
  change (match for_each file_list 0%Z (sync_one folder) ?w2 with
          | (Ok n, wb) => (Ok PyNone, with_line wb (total_line n))
          | (Raise e, wb) => (Raise e, wb)
          end) with (finish folder file_list 0%Z w2).
  match goal with |- context [finish ?f ?p ?m ?w2] =>
    destruct (finish_facts f p m w2) as ((later & Hj) & _ & Hdirs) end.
  split.
  - exists later. rewrite Hj. simpl. rewrite <- app_assoc. reflexivity.
  - apply Hdirs. simpl. apply lookup_insert_eq.
Qed.

Lemma populate_creates_folder_witness :
  let run := populate_with_symlinks ["/new/a.jpg"] "/dl/fresh" Samples.linked_world in
  path_exists Samples.linked_world (os_path_dirname "/dl/fresh") = true
  /\ entry Samples.linked_world "/dl/fresh" = Some ["d"; "fresh"]
  /\ fs Samples.linked_world !! ["d"; "fresh"] = None
  /\ path_exists Samples.linked_world "/dl/fresh" = false
  /\ (exists later,
        journal (snd run)
        = journal Samples.linked_world ++ [SysMkdir "/dl/fresh"] ++ later)
  /\ fs (snd run) !! ["d"; "fresh"] = Some Dir.
Proof.
  intros run.
  assert (H1 : path_exists Samples.linked_world (os_path_dirname "/dl/fresh") = true)
    by (vm_compute; reflexivity).
  assert (H2 : entry Samples.linked_world "/dl/fresh" = Some ["d"; "fresh"])
    by (vm_compute; reflexivity).
  assert (H3 : fs Samples.linked_world !! ["d"; "fresh"] = None)
    by (vm_compute; reflexivity).
  repeat (split; [assumption|]).
  exact (populate_creates_folder ["/new/a.jpg"] "/dl/fresh" Samples.linked_world
           ["d"; "fresh"] H1 H2 H3).
Defined.

(** X19. The call never removes or replaces a directory: every entry that
    is a directory before the call is a directory after it, however the
    call ends. *)
Theorem populate_keeps_directories file_list folder_path w k
    (Hdir : fs w !! k = Some Dir) :
  fs (snd (populate_with_symlinks file_list folder_path w)) !! k = Some Dir.
Proof.
  rewrite populate_unfold.
  pose proof (ensure_folder_only folder_path w) as He. unfold sat in He.
  destruct (ensure_folder folder_path w) as [[fd|e] wa]; simpl in He.
  - destruct He as [[_ Hkeep _] _].
    assert (Hwa : fs wa !! k = Some Dir).
    { rewrite Hkeep; [exact Hdir|]. rewrite Hdir. eexists; reflexivity. }
    change (match for_each file_list 0%Z (sync_one fd) wa with
            | (Ok n, wb) => (Ok PyNone, with_line wb (total_line n))
            | (Raise e, wb) => (Raise e, wb)
            end) with (finish fd file_list 0%Z wa).
    apply finish_facts, Hwa.
  - destruct He as [[_ Hkeep _] _]. simpl.
    rewrite Hkeep; [exact Hdir|]. rewrite Hdir. eexists; reflexivity.
Qed.

Lemma populate_keeps_directories_witness :
  fs collision_world !! ["d"; "album"] = Some Dir
  /\ fs (snd (populate_with_symlinks ["/new/a.jpg"; "/new/album"] "/d"
                collision_world)) !! ["d"; "album"] = Some Dir.
Proof.
  assert (H1 : fs collision_world !! ["d"; "album"] = Some Dir)
    by (vm_compute; reflexivity).
  split; [exact H1|].
  exact (populate_keeps_directories ["/new/a.jpg"; "/new/album"] "/d"
           collision_world ["d"; "album"] H1).
Defined.

(** X20. Every link is named like its source: the destination entry of a
    file has the base name of the absolute path of the file. *)
Theorem destination_basename cwd folder_path file_name :
  os_path_basename (destination_of cwd folder_path file_name)
  = os_path_basename (os_path_abspath cwd file_name).
Proof. unfold destination_of. apply basename_join, basename_sep_free. Qed.

(** X21. A file that is listed twice in a row is linked twice: when its
    source still exists after its first turn, the second turn removes the
    link just made and makes it again, so that the entries end as after
    one turn while the printed total is one higher. *)
Theorem populate_repeated_file pre file_name folder_path w v w2 :
  let target := os_path_abspath (cwd w) file_name in
  let folder := os_path_abspath (cwd w) folder_path in
  let dest := destination_of (cwd w) folder file_name in
  let run := populate_with_symlinks (pre ++ [file_name; file_name]) folder_path w in
  populate_with_symlinks (pre ++ [file_name]) folder_path w = (Ok v, w2) ->
  path_exists w2 target = true ->
  exists n,
    stdout w2 = stdout w ++ ["Total symbolic links created: " +:+ pretty n]
    /\ fst run = Ok PyNone
    /\ fs (snd run) = fs w2
    /\ journal (snd run)
       = journal w2 ++ [SysRemove dest; SysSymlink target dest]
    /\ stdout (snd run)
       = stdout w ++ ["Total symbolic links created: " +:+ pretty (n + 1)%Z].
Proof.
  intros target folder dest run Hrun Hex.
  destruct (populate_ok_parts _ _ _ _ _ Hrun)
    as (wa & n2 & wb2 & He & _ & Hl2 & Hc2 & Hca & Ho2 & _ & ->).
  change (path_exists (with_line wb2 (total_line n2)) target)
    with (path_exists wb2 target) in Hex.
  fold folder in He, Hl2.
  pose proof Hl2 as Hsplit. rewrite for_each_app in Hsplit.
  destruct (for_each pre 0%Z (sync_one folder) wa) as [[n|e] wb] eqn:Hl;
    [|discriminate].
  pose proof (sat_run _ _ _ _ _ Hl (sync_loop_counted _ _ _ _)) as [[Hcb _] _].
  apply same_cwd in Hcb.
  simpl in Hsplit. unfold bind in Hsplit.
  destruct (sync_one folder file_name n wb) as [[n'|e] w'] eqn:Es;
    [|discriminate].
  injection Hsplit as -> ->.
  apply sync_one_turn_run in Es.
  pose proof (turn_again folder file_name n wb n2 wb2 Es) as Hagain.
  simpl in Hagain. rewrite Hcb, Hca in Hagain. fold target dest in Hagain.
  specialize (Hagain Hex).
  exists n2. split; [simpl; rewrite Ho2; reflexivity|].
  unfold run.
  replace (pre ++ [file_name; file_name])
    with ((pre ++ [file_name]) ++ file_name :: [])
    by (rewrite <- app_assoc; reflexivity).
  rewrite (populate_turn _ _ _ _ _ _ _ _ He Hl2). fold folder.
  rewrite Hagain. unfold finish. simpl.
  repeat split; try reflexivity. rewrite Ho2. reflexivity.
Qed.

Lemma populate_repeated_file_witness :
  let w2 := snd (populate_with_symlinks ([] ++ ["/new/a.jpg"]) "/d"
                   Samples.sample_world) in
  let run := populate_with_symlinks ([] ++ ["/new/a.jpg"; "/new/a.jpg"]) "/d"
               Samples.sample_world in
  populate_with_symlinks ([] ++ ["/new/a.jpg"]) "/d" Samples.sample_world
  = (Ok PyNone, w2)
  /\ path_exists w2 "/new/a.jpg" = true
  /\ exists n,
       stdout w2 = ["Total symbolic links created: " +:+ pretty n]
       /\ fst run = Ok PyNone
       /\ fs (snd run) = fs w2
       /\ journal (snd run)
          = journal w2 ++ [SysRemove "/d/a.jpg"; SysSymlink "/new/a.jpg" "/d/a.jpg"]
       /\ stdout (snd run)
          = ["Total symbolic links created: " +:+ pretty (n + 1)%Z].
Proof.
  intros w2 run.
  assert (H1 : populate_with_symlinks ([] ++ ["/new/a.jpg"]) "/d"
                 Samples.sample_world = (Ok PyNone, w2))
    by (vm_compute; reflexivity).
  assert (H2 : path_exists w2 "/new/a.jpg" = true)
    by (vm_compute; reflexivity).
  split; [exact H1|]. split; [exact H2|].
  exact (populate_repeated_file [] "/new/a.jpg" "/d" Samples.sample_world
           PyNone w2 H1 H2).
Defined.

End SynchronizerMore.
